(** * mob: task engine and git tool, a shallow embedding

    The development follows [src/tasks/task.cpp] and [src/tools/git.cpp].
    Part I embeds the code: every C++ function becomes a Rocq function of
    the same name.  Code that throws lives in a small state-and-exception
    monad; scoped guards ([guard g(...)]) become [with_guard].  Part II
    states and proves the properties. *)

From Stdlib Require Import ZArith List Bool String Ascii Arith Lia.
From Stdlib Require Import DecimalString.
Import ListNotations.

Set Implicit Arguments.

(* ================================================================== *)
(** * Part I: the embedding *)
(* ================================================================== *)

(** ** Exceptions, outcomes and the effect monad *)

(** The exception classes the code throws or catches: [bailed] (fatal),
    [interrupted] (cooperative cancellation) and everything else that
    derives from [std::exception]. *)
Inductive exn : Type :=
| bailed
| interrupted
| std_exception.

Inductive outcome (A : Type) : Type :=
| Ret (a : A)
| Throw (e : exn).

Arguments Ret {A} a.
Arguments Throw {A} e.

Module Eff.

(** A computation over a state [S]: it ends normally with a value or by
    a thrown exception, and in both cases leaves a state behind. *)
Definition M (S A : Type) : Type := S -> outcome A * S.

Definition ret {S A} (a : A) : M S A := fun s => (Ret a, s).

Definition bind {S A B} (m : M S A) (k : A -> M S B) : M S B :=
  fun s =>
    match m s with
    | (Ret a, s') => k a s'
    | (Throw e, s') => (Throw e, s')
    end.

Definition throw {S A} (e : exn) : M S A := fun s => (Throw e, s).

Definition gets {S A} (f : S -> A) : M S A := fun s => (Ret (f s), s).

Definition modify {S} (f : S -> S) : M S unit := fun s => (Ret tt, f s).

(** [try { body } catch (...) { handler }]: [handler e] is [None] when
    no catch clause matches [e], and the exception keeps propagating. *)
Definition try_catch {S A} (body : M S A) (handler : exn -> option (M S A))
  : M S A :=
  fun s =>
    match body s with
    | (Ret a, s') => (Ret a, s')
    | (Throw e, s') =>
        match handler e with
        | Some h => h s'
        | None => (Throw e, s')
        end
    end.

(** [guard g(cleanup); body]: the destructor of the guard runs when the
    scope is left, by return or by unwinding. *)
Definition with_guard {S A} (cleanup : S -> S) (body : M S A) : M S A :=
  fun s => let (r, s') := body s in (r, cleanup s').

(** [for (auto&& x : xs) body(x);] *)
Fixpoint for_each {S A} (xs : list A) (body : A -> M S unit) : M S unit :=
  match xs with
  | [] => ret tt
  | x :: rest => bind (body x) (fun _ => for_each rest body)
  end.

End Eff.

Declare Scope eff_scope.
Delimit Scope eff_scope with eff.
Notation "x <- m ;; k" := (Eff.bind m (fun x => k))
  (at level 61, m at next level, right associativity) : eff_scope.
Notation "m ;;; k" := (Eff.bind m (fun _ => k))
  (at level 61, right associativity) : eff_scope.

(** ** Strings: the helpers of [utility.h] and the C library *)

Module Str.

Open Scope string_scope.

(** [s[i]] for [i < s.size()]. *)
Definition at_ (s : string) (i : nat) : ascii :=
  match String.get i s with
  | Some c => c
  | None => Ascii.zero
  end.

(** [s.find(c) != npos] *)
Fixpoint contains (c : ascii) (s : string) : bool :=
  match s with
  | EmptyString => false
  | String d rest => if Ascii.eqb d c then true else contains c rest
  end.

(** [std::tolower] on an [unsigned char], in the "C" locale: the
    letters 'A'..'Z' (65..90) move by 32, every other byte stays. *)
Definition tolower (c : ascii) : ascii :=
  let n := nat_of_ascii c in
  if ((65 <=? n) && (n <=? 90))%nat then ascii_of_nat (n + 32) else c.

(** An upper-case letter of the "C" locale. *)
Definition is_upper (c : ascii) : Prop :=
  65 <= nat_of_ascii c <= 90.

(** Modelled from the spec: [replace_all] is declared in utility.h, which
    is not part of the sources; every occurrence of [from] is replaced by
    [to], left to right.  The code only searches for one character. *)
Fixpoint replace_all (s : string) (from : ascii) (to : string) : string :=
  match s with
  | EmptyString => EmptyString
  | String c rest =>
      if Ascii.eqb c from then to ++ replace_all rest from to
      else String c (replace_all rest from to)
  end.

(** Modelled from the spec: [join] is declared in utility.h, which is not
    part of the sources; the elements separated by [sep]. *)
Fixpoint join (v : list string) (sep : string) : string :=
  match v with
  | [] => EmptyString
  | [x] => x
  | x :: rest => x ++ sep ++ join rest sep
  end.

End Str.

(** ** Name matching ([task::name_matches] and its helpers) *)

(** [std::regex] is the C++ standard library's, not this repository's: the
    embedding takes it as an interface.  Compiling a pattern (with
    [std::regex::icase]) throws [std::regex_error] on a malformed pattern,
    here [None]; [std::regex_match] may also throw (complexity or stack
    limits). *)
Record regex_engine : Type := {
  regex : Type;
  regex_icase : string -> option regex;
  regex_match : string -> regex -> option bool
}.

Module Matching.

Open Scope string_scope.
Open Scope eff_scope.
Import Eff.

(** What [name_matches] can write to: the [u8cerr] stream. *)
Definition console : Type := list string.

Definition u8cerr_write (text : string) : M console unit :=
  modify (fun out => (out ++ [text])%list).

Definition is_dash (c : ascii) : bool :=
  Ascii.eqb c "-" || Ascii.eqb c "_".

(** The loop of [strings_match]: [i] is the index, [n] the number of
    iterations left ([a.size() - i]). *)
Fixpoint strings_match_loop (a b : string) (i n : nat) : bool :=
  match n with
  | O => true
  | S n' =>
      if is_dash (Str.at_ a i) && is_dash (Str.at_ b i) then
        strings_match_loop a b (S i) n'
      else
        let ac := Str.at_ a i in
        let bc := Str.at_ b i in
        if negb (Ascii.eqb (Str.tolower ac) (Str.tolower bc)) then false
        else strings_match_loop a b (S i) n'
  end.

Definition strings_match (a b : string) : bool :=
  if negb (String.length a =? String.length b)%nat then false
  else strings_match_loop a b 0 (String.length a).

Fixpoint name_matches_string (names_ : list string) (pattern : string) : bool :=
  match names_ with
  | [] => false
  | n :: rest =>
      if strings_match n pattern then true
      else name_matches_string rest pattern
  end.

Section Glob.

Variable re : regex_engine.

(** Lifts a standard-library call that may throw a [std::exception]. *)
Definition std_call {A} (r : option A) : M console A :=
  match r with
  | Some a => ret a
  | None => throw std_exception
  end.

(** The [for] loop of [name_matches_glob]. *)
Fixpoint glob_loop (rx : regex re) (names_ : list string) : M console bool :=
  match names_ with
  | [] => ret false
  | n :: rest =>
      let fixed_name := Str.replace_all n "_" "-" in
      m <- std_call (regex_match re fixed_name rx) ;;
      if (m : bool) then ret true else glob_loop rx rest
  end.

Definition bad_glob_message (pattern : string) : string :=
  "bad glob '" ++ pattern ++ "'" ++ String (ascii_of_nat 10)
    ("globs are actually bastardized regexes where '*' is " ++
     "replaced by '.*', so don't push it" ++ String (ascii_of_nat 10) EmptyString).

Definition name_matches_glob (names_ : list string) (pattern : string)
  : M console bool :=
  try_catch
    (let fixed_pattern := pattern in
     let fixed_pattern := Str.replace_all fixed_pattern "*" ".*" in
     let fixed_pattern := Str.replace_all fixed_pattern "_" "-" in
     rx <- std_call (regex_icase re fixed_pattern) ;;
     glob_loop rx names_)
    (fun e =>
       match e with
       | std_exception =>
           Some (u8cerr_write (bad_glob_message pattern) ;;; throw bailed)
       | _ => None
       end).

Definition name_matches (names_ : list string) (pattern : string)
  : M console bool :=
  if Str.contains "*" pattern then name_matches_glob names_ pattern
  else ret (name_matches_string names_ pattern).

End Glob.

(** The exact-match rule in the words of the specification: equal length,
    and at every position both characters are a dash or an underscore, or
    they are equal up to case. *)
Definition same_ignoring_case (x y : ascii) : Prop :=
  x = y \/
  (Str.is_upper x /\ nat_of_ascii y = nat_of_ascii x + 32) \/
  (Str.is_upper y /\ nat_of_ascii x = nat_of_ascii y + 32).

Definition char_equiv (x y : ascii) : Prop :=
  (In x ["-"%char; "_"%char] /\ In y ["-"%char; "_"%char])
  \/ same_ignoring_case x y.

Definition exact_match (a pattern : string) : Prop :=
  String.length a = String.length pattern /\
  forall i, i < String.length a ->
            char_equiv (Str.at_ a i) (Str.at_ pattern i).

End Matching.

(** A small engine for the glob fragment: literal characters, [.] and
    [.*], compared case-insensitively.  It rejects every other regex
    operator, in particular an unbalanced parenthesis or bracket.  It is
    one instance of [regex_engine], used to run the code on examples. *)
Module GlobEngine.

Inductive token : Type :=
| TChar (c : ascii)
| TDot
| TAny.

Definition is_operator (c : ascii) : bool :=
  existsb (Ascii.eqb c)
    ["("; ")"; "["; "]"; "{"; "}"; "\"; "*"; "+"; "?"; "|"; "^"; "$"]%char.

Fixpoint compile (s : string) : option (list token) :=
  match s with
  | EmptyString => Some []
  | String "." (String "*" rest) => option_map (cons TAny) (compile rest)
  | String "." rest => option_map (cons TDot) (compile rest)
  | String c rest =>
      if is_operator c then None else option_map (cons (TChar c)) (compile rest)
  end.

Fixpoint matches (ts : list token) (s : string) : bool :=
  match ts with
  | [] => match s with EmptyString => true | _ => false end
  | TChar c :: ts' =>
      match s with
      | String d s' =>
          Ascii.eqb (Str.tolower c) (Str.tolower d) && matches ts' s'
      | EmptyString => false
      end
  | TDot :: ts' =>
      match s with
      | String _ s' => matches ts' s'
      | EmptyString => false
      end
  | TAny :: ts' =>
      (fix skip (s : string) : bool :=
         matches ts' s ||
         match s with
         | String _ s' => skip s'
         | EmptyString => false
         end) s
  end.

Definition engine : regex_engine :=
  {| regex := list token;
     regex_icase := compile;
     regex_match := fun s rx => Some (matches rx s) |}.

End GlobEngine.

(** ** Configuration *)

(** [conf().global()]: the process-wide switches the task engine reads. *)
Module conf_global.

Record t : Type := {
  clean : bool;
  fetch : bool;
  build : bool;
  redownload : bool;
  reextract : bool;
  reconfigure : bool;
  rebuild : bool
}.

End conf_global.

(** ** Clean flags ([task::clean], [make_clean_flags], [to_string]) *)

Module clean.

Open Scope Z_scope.

(** The enumerators of [enum class task::clean].  The enum is declared in
    task.h, which is not part of the sources, so its values are taken as
    parameters; [MOB_ENUM_OPERATORS] gives it the bitwise operators on the
    underlying integer. *)
Record enumerators : Type := {
  nothing : Z;
  redownload : Z;
  reextract : Z;
  reconfigure : Z;
  rebuild : Z
}.

(** What the specification says of the enum: a bitmask, [nothing] being
    zero and every flag a bit of its own. *)
Definition bitmask (E : enumerators) : Prop :=
  nothing E = 0 /\
  exists k1 k2 k3 k4 : Z,
    (0 <= k1 /\ 0 <= k2 /\ 0 <= k3 /\ 0 <= k4) /\
    (k1 <> k2 /\ k1 <> k3 /\ k1 <> k4 /\ k2 <> k3 /\ k2 <> k4 /\ k3 <> k4) /\
    redownload E = 2 ^ k1 /\ reextract E = 2 ^ k2 /\
    reconfigure E = 2 ^ k3 /\ rebuild E = 2 ^ k4.

(** Modelled from the spec: [is_set] comes with the enum operators of
    utility.h, not part of the sources; a flag is set in a bitmask when
    masking with it gives the flag back. *)
Definition is_set (c v : Z) : bool := Z.land c v =? v.

Section Flags.

Variable E : enumerators.

Definition to_string (c : Z) : string :=
  let v := [] in
  let v := if is_set c (redownload E) then v ++ ["redownload"%string] else v in
  let v := if is_set c (reextract E) then v ++ ["reextract"%string] else v in
  let v := if is_set c (reconfigure E) then v ++ ["reconfigure"%string] else v in
  let v := if is_set c (rebuild E) then v ++ ["rebuild"%string] else v in
  Str.join v "|".

Definition make_clean_flags (g : conf_global.t) : Z :=
  let c := nothing E in
  let c := if conf_global.redownload g then Z.lor c (redownload E) else c in
  let c := if conf_global.reextract g then Z.lor c (reextract E) else c in
  let c := if conf_global.reconfigure g then Z.lor c (reconfigure E) else c in
  let c := if conf_global.rebuild g then Z.lor c (rebuild E) else c in
  c.

(** The four flags in the order of the enum, each with its switch and its
    name: the table the specification's sentence ranges over. *)
Definition flag_table : list ((conf_global.t -> bool) * Z * string) :=
  [ (conf_global.redownload, redownload E, "redownload"%string);
    (conf_global.reextract, reextract E, "reextract"%string);
    (conf_global.reconfigure, reconfigure E, "reconfigure"%string);
    (conf_global.rebuild, rebuild E, "rebuild"%string) ].

Definition switched_on (g : conf_global.t) :
  list ((conf_global.t -> bool) * Z * string) :=
  filter (fun row => fst (fst row) g) flag_table.

End Flags.

(** The usual values. *)
Definition standard : enumerators :=
  {| nothing := 0; redownload := 1; reextract := 2;
     reconfigure := 4; rebuild := 8 |}.

End clean.

(** [conf()]: the global switches and, per task (keyed by the task's
    names), the boolean [enabled]. *)
Record conf : Type := {
  global : conf_global.t;
  task_enabled : list string -> bool
}.

(** ** The task ([class task]) *)

Module task.

Open Scope string_scope.
Open Scope eff_scope.
Import Eff.

Definition thread_id : Type := nat.

(** A tool is known to the task by its address. *)
Definition tool_ptr : Type := nat.

(** [struct task::thread_context] *)
Record thread_context : Type := {
  tid : thread_id;
  cx_name : string
}.

Inductive level : Type := trace | debug | info | error.

(** What an observer sees of a run: log lines (with the name of the
    context they were written to), and the calls that leave task.cpp, to
    the virtual hooks, to tools and to the task manager. *)
Inductive event : Type :=
| Log (context_name : string) (lv : level) (msg : string)
| DoClean (c : Z)
| DoFetch
| DoBuildAndInstall
| ToolRun (t : tool_ptr)
| ToolInterrupt (t : tool_ptr)
| RegisterTask (name : string)
| InterruptAll
| StartThread (id : thread_id) (name : string)
| JoinThread (id : thread_id).

(** The data members of [task] that change ([names_] does not), and the
    events observed so far. *)
Record state : Type := {
  interrupted_ : bool;
  tools_ : list tool_ptr;
  contexts_ : list thread_context;
  events : list event
}.

Definition set_interrupted (b : bool) (s : state) : state :=
  {| interrupted_ := b; tools_ := tools_ s;
     contexts_ := contexts_ s; events := events s |}.

Definition set_tools (ts : list tool_ptr) (s : state) : state :=
  {| interrupted_ := interrupted_ s; tools_ := ts;
     contexts_ := contexts_ s; events := events s |}.

Definition set_contexts (cs : list thread_context) (s : state) : state :=
  {| interrupted_ := interrupted_ s; tools_ := tools_ s;
     contexts_ := cs; events := events s |}.

Definition emit (e : event) : M state unit :=
  modify (fun s =>
    {| interrupted_ := interrupted_ s; tools_ := tools_ s;
       contexts_ := contexts_ s; events := (events s ++ [e])%list |}).

(** The members of one task inside a larger state [W].  [others] is what
    a call of [task_manager::interrupt_all] (modelled from the spec, as
    [interrupt_all] below) does to the other tasks of [W]: they are other
    objects, so the members of this task stay as they are. *)
Record view (W : Type) : Type := {
  get : W -> state;
  put : state -> W -> W;
  get_put : forall s w, get (put s w) = s;
  others : W -> W;
  others_get : forall w, get (others w) = get w
}.

(** A task by itself: no other task is in sight. *)
Definition whole : view state :=
  {| get := fun s => s; put := fun s _ => s; get_put := fun _ _ => eq_refl;
     others := fun s => s; others_get := fun _ => eq_refl |}.


Definition lift {W A : Type} (V : view W) (m : M state A) : M W A :=
  fun w => let (r, s') := m (get V w) in (r, put V s' w).

Definition over {W : Type} (V : view W) (f : state -> state) : W -> W :=
  fun w => put V (f (get V w)) w.

(** A tool, as the task sees it: its address, its name and its virtual
    [run], which is given the name of the context it logs to. *)
Record tool : Type := {
  tool_addr : tool_ptr;
  tool_name : string;
  tool_run : string -> M state unit
}.

(** The immutable part of a task and its virtual member functions; the
    hooks are told the thread that calls them. *)
Record class : Type := {
  names_ : list string;
  enabled : conf -> bool;
  do_clean : thread_id -> Z -> M state unit;
  do_fetch : thread_id -> M state unit;
  do_build_and_install : thread_id -> M state unit;
  get_source_path : string;
  get_prebuilt : bool
}.

(** [task::enabled], the base implementation. *)
Definition base_enabled (names : list string) (c : conf) : bool :=
  task_enabled c names.

(** The base class: no-op hooks, empty source path, not prebuilt. *)
Definition base (names : list string) : class :=
  {| names_ := names;
     enabled := base_enabled names;
     do_clean := fun _ _ => ret tt;
     do_fetch := fun _ => ret tt;
     do_build_and_install := fun _ => ret tt;
     get_source_path := EmptyString;
     get_prebuilt := false |}.

Definition name (t : class) : string := nth 0 (names_ t) EmptyString.

Definition names (t : class) : list string := names_ t.

(** [std::erase(v, x)]: every element equal to [x] goes. *)
Definition erase (x : tool_ptr) (v : list tool_ptr) : list tool_ptr :=
  filter (fun y => negb (y =? x)%nat) v.

(** [contexts_.erase(itor); break;] at the first record of the thread. *)
Fixpoint erase_first (t : thread_id) (v : list thread_context)
  : list thread_context :=
  match v with
  | [] => []
  | td :: rest =>
      if (tid td =? t)%nat then rest else td :: erase_first t rest
  end.

(** The name of the global context [gcx()]. *)
Definition gcx : string := EmptyString.

(** Modelled from the spec: [tool::interrupt] is defined with the tools,
    outside the sources; it asks the tool to cancel the operation it wraps
    and is seen here as the event of the call. *)
Definition tool_interrupt (t : tool_ptr) : M state unit :=
  emit (ToolInterrupt t).

Section Methods.

(** The thread that executes the member function
    ([std::this_thread::get_id()]). *)
Variable this_thread : thread_id.

(** The configuration [conf()] read by the task. *)
Variable cfg : conf.

(** The clean flags of task.h. *)
Variable E : clean.enumerators.

(** The patch tool built in [fetch]: [patcher().task(name, prebuilt)
    .root(path)]. *)
Variable patcher : string -> bool -> string -> tool.

(** [task::cx()]: the context of the calling thread, or the context named
    "?" when the thread has none. *)
Definition cx (s : state) : string :=
  match find (fun td => (tid td =? this_thread)%nat) (contexts_ s) with
  | Some td => cx_name td
  | None => "?"
  end.

Definition log (lv : level) (msg : string) : M state unit :=
  fun s => emit (Log (cx s) lv msg) s.

Definition add_context_for_this_thread (name : string) : M state unit :=
  modify (fun s =>
    set_contexts
      (contexts_ s ++ [ {| tid := this_thread; cx_name := name |} ])%list s).

Definition remove_context_for_this_thread (s : state) : state :=
  set_contexts (erase_first this_thread (contexts_ s)) s.

(** The constructor [task::task(names)], run on [this_thread].  The code
    reads [names_[0]]: it is meant for a list with a first name, and what
    is said of [construct] is said for such lists. *)
Definition construct (names : list string) : state :=
  let n := nth 0 names EmptyString in
  {| interrupted_ := false;
     tools_ := [];
     contexts_ := [ {| tid := this_thread; cx_name := n |} ];
     events := if String.eqb n "parallel" then [] else [RegisterTask n] |}.

Definition check_interrupted : M state unit :=
  fun s => if interrupted_ s then (Throw interrupted, s) else (Ret tt, s).

Definition run_tool_impl (t : tool) : M state unit :=
  modify (fun s => set_tools (tools_ s ++ [tool_addr t])%list s) ;;;
  with_guard (fun s => set_tools (erase (tool_addr t) (tools_ s)) s)
    (log debug ("running tool " ++ tool_name t) ;;;
     check_interrupted ;;;
     (emit (ToolRun (tool_addr t)) ;;; c <- gets cx ;; tool_run t c) ;;;
     check_interrupted).

Definition interrupt : M state unit :=
  modify (set_interrupted true) ;;;
  ts <- gets tools_ ;;
  for_each ts tool_interrupt.

(** Modelled from the spec: [task_manager::interrupt_all] is defined in
    task_manager.cpp, outside the sources; it calls [interrupt()] on every
    registered task.  This is its part on the task at hand, which is
    registered unless its name is "parallel" (see the constructor); the
    call itself is recorded as an event.  The [interrupt()] of a
    registered task is [task::interrupt]: the one class of the sources
    that overrides it, [parallel_tasks], is not registered. *)
Definition interrupt_all (registered : bool) : M state unit :=
  emit InterruptAll ;;;
  if registered then interrupt else ret tt.

Section Lifecycle.

Variable t : class.

Definition clean_task : M state unit :=
  if negb (conf_global.clean (global cfg)) then ret tt
  else if negb (enabled t cfg) then
    log debug "cleaning (skipping, task disabled)"
  else
    let cf := clean.make_clean_flags E (global cfg) in
    if negb (cf =? clean.nothing E)%Z then
      log info ("cleaning (" ++ clean.to_string E cf ++ ")") ;;;
      (emit (DoClean cf) ;;; do_clean t this_thread cf)
    else ret tt.

Definition fetch : M state unit :=
  if negb (conf_global.fetch (global cfg)) then ret tt
  else if negb (enabled t cfg) then
    log debug "fetching (skipping, task disabled)"
  else
    log info "fetching" ;;;
    (emit DoFetch ;;; do_fetch t this_thread) ;;;
    check_interrupted ;;;
    if negb (String.eqb (get_source_path t) EmptyString) then
      log debug "patching" ;;;
      run_tool_impl (patcher (name t) (get_prebuilt t) (get_source_path t))
    else ret tt.

Definition build_and_install : M state unit :=
  if negb (conf_global.build (global cfg)) then ret tt
  else if negb (enabled t cfg) then
    log debug "build and install (skipping, task disabled)"
  else
    log info "build and install" ;;;
    (emit DoBuildAndInstall ;;; do_build_and_install t this_thread).

Definition run : M state unit :=
  if negb (enabled t cfg) then
    log debug "task is disabled"
  else
    log info "running task" ;;;
    clean_task ;;;
    check_interrupted ;;;
    fetch ;;;
    check_interrupted ;;;
    build_and_install ;;;
    check_interrupted.

(** [running_from_thread(thread_name, f)].  [f] is any callable: it acts
    on the part [W] of the program that it captured, of which the members
    of this task are a [view].  After [bailed], [interrupt_all] reaches
    this task when it is registered, and the other tasks of [W]. *)
Definition running_from_thread {W : Type} (V : view W)
  (thread_name : string) (f : M W unit) : M W unit :=
  try_catch
    (lift V (add_context_for_this_thread thread_name) ;;;
     with_guard (over V remove_context_for_this_thread) f)
    (fun e =>
       match e with
       | bailed =>
           Some (lift V
                   (emit (Log gcx error
                            (name t ++ " bailed out, interrupting all tasks")) ;;;
                    interrupt_all (negb (String.eqb (name t) "parallel"))) ;;;
                 modify (others V))
       | interrupted => Some (ret tt)
       | std_exception => None
       end).

End Lifecycle.

End Methods.

(** The calls to the three hooks among the events. *)
Definition is_hook_call (e : event) : bool :=
  match e with
  | DoClean _ | DoFetch | DoBuildAndInstall => true
  | _ => false
  end.

Definition hook_calls (s : state) : list event :=
  filter is_hook_call (events s).

(** The interruption flag stays set across [m]. *)
Definition keeps_flag {A : Type} (m : M state A) : Prop :=
  forall s, interrupted_ s = true -> interrupted_ (snd (m s)) = true.

Definition tool_runs (t : tool_ptr) (s : state) : nat :=
  List.length
    (filter (fun e => match e with ToolRun u => (u =? t)%nat | _ => false end)
            (events s)).

(** The calls of [task_manager::interrupt_all] made from within the task,
    among its events. *)
Definition interrupt_all_calls (s : state) : nat :=
  List.length
    (filter (fun e => match e with InterruptAll => true | _ => false end)
            (events s)).

End task.

(** ** The context registry seen from all threads *)

(** [contexts_] is shared by the threads that work for a task, under
    [contexts_mutex_]: adding and removing a record are atomic, and the
    threads interleave between them.  The code does not look for a record
    of the thread before it adds one.  That a thread enters
    [running_from_thread] only while it has no record in the registry is
    left to the callers ([parallel_tasks::run] and [task::parallel] call
    it first thing on a thread they have just started), and is the
    condition of [thread_begins] below. *)
Module registry.




Section Steps.

Variable creator : task.thread_id.
Variable names : list string.





End Steps.

End registry.

(** ** The parallel group ([class parallel_tasks]) *)

Module parallel_tasks.

Open Scope string_scope.
Open Scope eff_scope.
Import Eff.

(** A child as the group holds it, through a [task*]: its name and its
    virtual member functions, which act on what the child object is made
    of ([C]).  [v_run] is told the calling thread and what a [run] reads
    of the program: the configuration, the clean flags and the patch
    tool.  The last two fields are modelled from the spec, for the
    process-wide [task_manager::interrupt_all]: what a call of it does to
    the tasks registered from within the object, and how many calls of
    it have been made from within the object. *)
Record vtable (C : Type) : Type := {
  v_name : string;
  v_run : task.thread_id -> conf -> clean.enumerators ->
          (string -> bool -> string -> task.tool) -> M C unit;
  v_interrupt : M C unit;
  v_interrupt_all : C -> C;
  v_interrupt_all_calls : C -> nat
}.

(** A child whose class takes [run] and [interrupt] from [task]. *)
Definition plain (t : task.class) : vtable task.state :=
  {| v_name := task.name t;
     v_run := fun tid cfg E patcher => task.run tid cfg E patcher t;
     v_interrupt := task.interrupt;
     v_interrupt_all := fun s =>
       if negb (String.eqb (task.name t) "parallel")
       then snd (task.interrupt s) else s;
     v_interrupt_all_calls := task.interrupt_all_calls |}.

(** The group's own task members, what each child is made of
    ([children_[i]], by index), the started threads ([threads_], each with
    the index of the child it runs) and the id that the next started
    thread gets. *)
Record world (C : Type) : Type := {
  self : task.state;
  child : nat -> C;
  threads_ : list (task.thread_id * nat);
  next_thread_id : task.thread_id
}.

(** A member function of child [i]. *)
Definition on_child {C A : Type} (i : nat) (m : M C A) : M (world C) A :=
  fun w =>
    let (r, s') := m (child w i) in
    (r, {| self := self w;
           child := fun j => if (j =? i)%nat then s' else child w j;
           threads_ := threads_ w;
           next_thread_id := next_thread_id w |}).

(** [parallel_tasks::enabled] *)
Definition enabled (c : conf) : bool := true.

(** The group as a task: constructed as [task("parallel")], with
    [enabled] overridden. *)
Definition as_task : task.class :=
  {| task.names_ := ["parallel"];
     task.enabled := enabled;
     task.do_clean := fun _ _ => ret tt;
     task.do_fetch := fun _ => ret tt;
     task.do_build_and_install := fun _ => ret tt;
     task.get_source_path := EmptyString;
     task.get_prebuilt := false |}.

Section Group.

Variable C : Type.
Variable cfg : conf.
Variable E : clean.enumerators.
Variable patcher : string -> bool -> string -> task.tool.

(** [children_] *)
Variable children_ : list (vtable C).

(** Modelled from the spec: [task_manager::interrupt_all], for the tasks
    registered from within the children. *)
Definition child_interrupt_all (i : nat) (s : C) : C :=
  match nth_error children_ i with
  | Some t => v_interrupt_all t s
  | None => s
  end.

Definition interrupt_all_children (w : world C) : world C :=
  {| self := self w;
     child := fun i => child_interrupt_all i (child w i);
     threads_ := threads_ w;
     next_thread_id := next_thread_id w |}.

(** The members of the group itself, among its children. *)
Definition self_view : task.view (world C) :=
  {| task.get := @self C;
     task.put := fun s w =>
       {| self := s; child := child w; threads_ := threads_ w;
          next_thread_id := next_thread_id w |};
     task.get_put := fun _ _ => eq_refl;
     task.others := interrupt_all_children;
     task.others_get := fun _ => eq_refl |}.

(** Modelled from the spec: a call of [task_manager::interrupt_all] made
    from within child [i] reaches the other children of the group as
    well. *)
Definition reach_siblings (i : nat) (w : world C) : world C :=
  {| self := self w;
     child := fun j =>
       if (j =? i)%nat then child w j
       else child_interrupt_all j (child w j);
     threads_ := threads_ w;
     next_thread_id := next_thread_id w |}.

(** The callable of the thread function, [[&]{ t->run(); }], for child
    [i]: the child's virtual [run]; the calls of [interrupt_all] it made
    reach its siblings. *)
Definition run_child (tid : task.thread_id) (i : nat) (t : vtable C)
  : M (world C) unit :=
  fun w =>
    let (r, w') := on_child i (v_run t tid cfg E patcher) w in
    (r, Nat.iter (v_interrupt_all_calls t (child w' i) -
                  v_interrupt_all_calls t (child w i))
          (reach_siblings i) w').

(** The function given to [start_thread] for child [i], run by thread
    [tid]: [running_from_thread(t->name(), [&]{ t->run(); })]. *)
Definition thread_function (tid : task.thread_id) (i : nat)
  : M (world C) unit :=
  match nth_error children_ i with
  | Some t =>
      task.running_from_thread tid as_task self_view (v_name t)
        (run_child tid i t)
  | None => ret tt
  end.

(** [threads_.push_back(start_thread(...))]: the new thread gets the next
    free id. *)
Definition start_thread (i : nat) (name : string) : M (world C) unit :=
  fun w =>
    let tid := next_thread_id w in
    task.lift self_view (task.emit (task.StartThread tid name))
      {| self := self w; child := child w;
         threads_ := (threads_ w ++ [(tid, i)])%list;
         next_thread_id := S tid |}.

(** [join]: [t.join()] returns when the thread is done with its function;
    the threads are taken to run one after the other, each when it is
    joined. *)
Definition join : M (world C) unit :=
  ts <- gets (@threads_ C) ;;
  for_each ts
    (fun th =>
       thread_function (fst th) (snd th) ;;;
       task.lift self_view (task.emit (task.JoinThread (fst th)))) ;;;
  modify (fun w =>
    {| self := self w; child := child w; threads_ := [];
       next_thread_id := next_thread_id w |}).

(** The [for] loop of [run], child by child from index [i]. *)
Fixpoint start_all (i : nat) (ts : list (vtable C)) : M (world C) unit :=
  match ts with
  | [] => ret tt
  | t :: rest => start_thread i (v_name t) ;;; start_all (S i) rest
  end.

Definition run : M (world C) unit :=
  start_all 0 children_ ;;;
  join.


(** No child ends its [run] by an exception other than [bailed] and
    [interrupted] (one that would leave the thread function). *)
Definition no_crash : Prop :=
  forall i t tid s,
    nth_error children_ i = Some t ->
    fst (v_run t tid cfg E patcher s) <> Throw std_exception.

(** No child ends its [run] by [bailed], nor calls [interrupt_all] from
    within its [run]. *)
Definition no_bail_out : Prop :=
  forall i t tid s,
    nth_error children_ i = Some t ->
    fst (v_run t tid cfg E patcher s) <> Throw bailed /\
    v_interrupt_all_calls t (snd (v_run t tid cfg E patcher s)) =
      v_interrupt_all_calls t s.

(** The calls of [interrupt_all] made from within the children, from
    index [i], and from within the whole group. *)
Fixpoint children_calls (i : nat) (ts : list (vtable C)) (w : world C) : nat :=
  match ts with
  | [] => 0
  | t :: rest =>
      v_interrupt_all_calls t (child w i) + children_calls (S i) rest w
  end.

Definition interrupt_all_calls (w : world C) : nat :=
  task.interrupt_all_calls (self w) + children_calls 0 children_ w.

(** The [for] loop of [interrupt], child by child from index [i]:
    [t->interrupt()]. *)
Fixpoint interrupt_from (i : nat) (ts : list (vtable C)) : M (world C) unit :=
  match ts with
  | [] => ret tt
  | t :: rest => on_child i (v_interrupt t) ;;; interrupt_from (S i) rest
  end.

(** [parallel_tasks::interrupt] *)
Definition interrupt : M (world C) unit :=
  interrupt_from 0 children_.

End Group.

(** A child that is itself a group: [run] and [interrupt] are those of
    [parallel_tasks].  It is not registered (its name is "parallel"), but
    its children may be. *)
Definition nested {C : Type} (kids : list (vtable C)) : vtable (world C) :=
  {| v_name := "parallel";
     v_run := fun _ cfg E patcher => run cfg E patcher kids;
     v_interrupt := interrupt kids;
     v_interrupt_all := interrupt_all_children kids;
     v_interrupt_all_calls := interrupt_all_calls kids |}.



End parallel_tasks.

(** ** A concrete task, after [src/tasks/boost_di.cpp] *)

Module boost_di.

Import Eff.

Definition git_clone : task.tool :=
  {| task.tool_addr := 1;
     task.tool_name := "git_clone";
     task.tool_run := fun _ => ret tt |}.

Definition names : list string := ["boost-di"; "boostdi"; "boost_di"]%string.

(** Its [do_fetch] runs the git tool; the other hooks are the base
    class's. *)
Definition make : task.class :=
  {| task.names_ := names;
     task.enabled := task.base_enabled names;
     task.do_clean := fun _ _ => ret tt;
     task.do_fetch := fun this_thread => task.run_tool_impl this_thread git_clone;
     task.do_build_and_install := fun _ => ret tt;
     task.get_source_path := EmptyString;
     task.get_prebuilt := false |}.

(** A patch tool that finds nothing to patch. *)
Definition patcher (name : string) (prebuilt : bool) (root : string)
  : task.tool :=
  {| task.tool_addr := 2;
     task.tool_name := "patcher";
     task.tool_run := fun _ => ret tt |}.

Definition redownload_and_rebuild : conf_global.t :=
  {| conf_global.clean := true; conf_global.fetch := true;
     conf_global.build := true; conf_global.redownload := true;
     conf_global.reextract := false; conf_global.reconfigure := false;
     conf_global.rebuild := true |}.

Definition no_redownload : conf_global.t :=
  {| conf_global.clean := true; conf_global.fetch := true;
     conf_global.build := true; conf_global.redownload := false;
     conf_global.reextract := false; conf_global.reconfigure := false;
     conf_global.rebuild := true |}.

(** A configuration that disables every task, and one that enables all. *)
Definition all_disabled : conf :=
  {| global := redownload_and_rebuild; task_enabled := fun _ => false |}.

Definition all_enabled : conf :=
  {| global := redownload_and_rebuild; task_enabled := fun _ => true |}.

End boost_di.

(** ** The git tool ([class git], tools/git.cpp) *)

Module git.

Open Scope string_scope.
Open Scope eff_scope.
Import Eff.

(** An [fs::path], by its components; the empty list is the empty path. *)
Definition path : Type := list string.

Fixpoint path_eqb (p q : path) : bool :=
  match p, q with
  | [], [] => true
  | a :: p', b :: q' => String.eqb a b && path_eqb p' q'
  | _, _ => false
  end.

(** [q] is [p] or lies below it. *)
Fixpoint is_prefix (p q : path) : bool :=
  match p, q with
  | [], _ => true
  | a :: p', b :: q' => String.eqb a b && is_prefix p' q'
  | _ :: _, [] => false
  end.

(** [enum ops], by the labels of the [switch] in [do_run].  The enum is
    declared in tools.h, which is not part of the sources; [other_op]
    stands for any further value, which the [default] label receives and
    formats into its message. *)
Inductive ops : Type :=
| clone
| pull
| clone_or_pull2
| other_op (value : nat).

(** The data members of the tool. *)
Record t : Type := {
  op_ : ops;
  url_ : string;
  branch_ : string;
  where_ : path
}.

(** An argument of a process: text, or a path. *)
Inductive arg : Type :=
| text (s : string)
| file (p : path).

(** The process a tool builds: its arguments and its working directory. *)
Record process : Type := {
  args : list arg;
  cwd : option path
}.

(** What the tool acts on: the entries of the file system, the processes
    executed so far, and the log of its context. *)
Record world : Type := {
  files : list path;
  executed : list process;
  log : list (task.level * string)
}.

(** [fs::exists] *)
Definition exists_ (fs : list path) (p : path) : bool :=
  existsb (path_eqb p) fs.

Definition write_log (lv : task.level) (msg : string) : M world unit :=
  modify (fun w =>
    {| files := files w; executed := executed w;
       log := (log w ++ [(lv, msg)])%list |}).

(** Modelled from the spec: [bail_out] is defined with the logging code,
    outside the sources; it reports the error and throws [bailed]. *)
Definition bail_out {A : Type} (msg : string) : M world A :=
  write_log task.error msg ;;; throw bailed.

(** Modelled from the spec: [op::delete_directory] is declared in op.h and
    defined outside the sources; the directory goes with all that is in
    it, and with [op::optional] a directory that is not there is not an
    error. *)
Definition delete_directory (p : path) : M world unit :=
  modify (fun w =>
    {| files := filter (fun q => negb (is_prefix p q)) (files w);
       executed := executed w; log := log w |}).

Section Tool.

(** The git program itself: whether it exits with success, and what it
    leaves on the file system. *)
Variable git_binary : process -> list path -> bool * list path.

(** [conf::redownload()], [conf::reextract()] *)
Variable g : conf_global.t.

Variable self : t.

(** Modelled from the spec: [execute_and_join] belongs to
    [basic_process_runner], outside the sources; it runs [process_] to
    its end.  An exit code other than zero is fatal to the tool
    invocation and propagates by unwinding; the spec keeps this failure
    apart from a bail-out (it does not interrupt the other tasks), so it
    is raised as an exception that is neither [bailed] nor
    [interrupted]. *)
Definition execute_and_join (process_ : process) : M world unit :=
  fun w =>
    let (ok, fs') := git_binary process_ (files w) in
    let w' := {| files := fs';
                 executed := (executed w ++ [process_])%list;
                 log := log w |} in
    if ok then (Ret tt, w') else (Throw std_exception, w').

Definition clone_process : process :=
  {| args := [text "clone"; text "--recurse-submodules";
              text "--depth"; text "1";
              text "--branch"; text (branch_ self);
              text "--quiet";
              text "-c"; text "advice.detachedHead=false";
              text (url_ self); file (where_ self)];
     cwd := None |}.

Definition pull_process : process :=
  {| args := [text "pull"; text "--recurse-submodules"; text "--quiet";
              text (url_ self); text (branch_ self)];
     cwd := Some (where_ self) |}.

Definition do_clone : M world bool :=
  let dot_git := (where_ self ++ [".git"])%list in
  fs <- gets files ;;
  if exists_ fs dot_git then
    write_log task.trace
      ("not cloning, " ++ Str.join dot_git "/" ++ " exists") ;;;
    ret false
  else
    execute_and_join clone_process ;;;
    ret true.

Definition do_pull : M world unit :=
  execute_and_join pull_process.

Definition do_clone_or_pull : M world unit :=
  cloned <- do_clone ;;
  if negb cloned then do_pull else ret tt.

Definition do_run : M world unit :=
  (if String.eqb (url_ self) EmptyString || path_eqb (where_ self) []
   then bail_out "git missing parameters" else ret tt) ;;;
  (if conf_global.redownload g || conf_global.reextract g then
     write_log task.trace "deleting directory controlled by git" ;;;
     delete_directory (where_ self)
   else ret tt) ;;;
  match op_ self with
  | clone => _ <- do_clone ;; ret tt
  | pull => do_pull
  | clone_or_pull2 => do_clone_or_pull
  | other_op value =>
      bail_out ("git unknown op " ++
                NilEmpty.string_of_uint (Nat.to_uint value))
  end.

End Tool.

(** The checkout-type and the update-type processes among the executed
    ones. *)
Definition is_clone (p : process) : bool :=
  match args p with
  | text c :: _ => String.eqb c "clone"
  | _ => false
  end.

Definition is_pull (p : process) : bool :=
  match args p with
  | text c :: _ => String.eqb c "pull"
  | _ => false
  end.

Definition clones (w : world) : nat :=
  List.length (filter is_clone (executed w)).

Definition pulls (w : world) : nat :=
  List.length (filter is_pull (executed w)).

(** The directory entries and the external calls of a run, without the
    log. *)
Definition untouched (w w' : world) : Prop :=
  files w' = files w /\ executed w' = executed w.

(** A stand-in for the git program: a clone writes the destination and
    its [.git]; everything else leaves the files alone; all succeed. *)
Definition fake_git (p : process) (fs : list path) : bool * list path :=
  match args p, last (args p) (text EmptyString) with
  | text "clone" :: _, file dest => (true, dest :: (dest ++ [".git"])%list :: fs)
  | _, _ => (true, fs)
  end.

End git.

(** A regex engine with a bound on the subject: the glob fragment of
    [GlobEngine], whose match gives up (as [std::regex_match] does with
    [error_stack]) on a subject longer than [limit]. *)
Module BoundedEngine.

Definition engine (limit : nat) : regex_engine :=
  {| regex := list GlobEngine.token;
     regex_icase := GlobEngine.compile;
     regex_match := fun s rx =>
       if (String.length s <=? limit)%nat
       then Some (GlobEngine.matches rx s) else None |}.

End BoundedEngine.

(* ================================================================== *)
(** * Part II: properties *)
(* ================================================================== *)

(** ** Name matching *)

Section MatchingFacts.

Import Matching.
Open Scope string_scope.

Example boost_di_exact :
  strings_match "boost-di" "Boost_DI" = true /\
  strings_match "boost-di" "boost-di2" = false.
Proof. split; reflexivity. Qed.

Example boost_di_glob :
  name_matches GlobEngine.engine ["boost_di"] "boost*" [] = (Ret true, []) /\
  name_matches GlobEngine.engine ["boost_di"] "*di" [] = (Ret true, []) /\
  name_matches GlobEngine.engine ["boost_di"] "*x" [] = (Ret false, []).
Proof. repeat split; reflexivity. Qed.

Lemma is_dash_spec (c : ascii) :
  is_dash c = true <-> In c ["-"%char; "_"%char].
Proof.
  unfold is_dash. rewrite orb_true_iff, !Ascii.eqb_eq. simpl.
  intuition congruence.
Qed.

Lemma nat_of_ascii_inj (x y : ascii) :
  nat_of_ascii x = nat_of_ascii y -> x = y.
Proof.
  intros H. rewrite <- (ascii_nat_embedding x), <- (ascii_nat_embedding y).
  now rewrite H.
Qed.

Lemma nat_of_tolower (c : ascii) :
  nat_of_ascii (Str.tolower c) =
  if ((65 <=? nat_of_ascii c) && (nat_of_ascii c <=? 90))%nat
  then nat_of_ascii c + 32 else nat_of_ascii c.
Proof.
  unfold Str.tolower.
  destruct ((65 <=? nat_of_ascii c) && (nat_of_ascii c <=? 90))%nat eqn:Hup;
    [|reflexivity].
  apply andb_true_iff in Hup. destruct Hup as [H1 H2].
  apply Nat.leb_le in H1, H2.
  apply nat_ascii_embedding. lia.
Qed.

(** [std::tolower] identifies exactly the characters that differ by case
    at most. *)
Lemma tolower_eq_iff (x y : ascii) :
  Str.tolower x = Str.tolower y <-> same_ignoring_case x y.
Proof.
  unfold same_ignoring_case, Str.is_upper. split.
  - intros H. apply (f_equal nat_of_ascii) in H.
    rewrite !nat_of_tolower in H.
    destruct (Nat.leb_spec 65 (nat_of_ascii x)),
      (Nat.leb_spec (nat_of_ascii x) 90),
      (Nat.leb_spec 65 (nat_of_ascii y)),
      (Nat.leb_spec (nat_of_ascii y) 90); simpl in H;
      first [ left; apply nat_of_ascii_inj; lia
            | right; left; lia
            | right; right; lia ].
  - intros H. apply nat_of_ascii_inj. rewrite !nat_of_tolower.
    destruct H as [->|[[Hx Hy]|[Hy Hx]]]; [reflexivity| |].
    + destruct (Nat.leb_spec 65 (nat_of_ascii x)),
        (Nat.leb_spec (nat_of_ascii x) 90),
        (Nat.leb_spec 65 (nat_of_ascii y)),
        (Nat.leb_spec (nat_of_ascii y) 90); simpl; lia.
    + destruct (Nat.leb_spec 65 (nat_of_ascii x)),
        (Nat.leb_spec (nat_of_ascii x) 90),
        (Nat.leb_spec 65 (nat_of_ascii y)),
        (Nat.leb_spec (nat_of_ascii y) 90); simpl; lia.
Qed.

(** One iteration of the loop accepts exactly the pairs of [char_equiv]. *)
Lemma char_step_spec (x y : ascii) :
  (is_dash x && is_dash y
   || Ascii.eqb (Str.tolower x) (Str.tolower y)) = true <-> char_equiv x y.
Proof.
  unfold char_equiv.
  rewrite orb_true_iff, andb_true_iff, !is_dash_spec, Ascii.eqb_eq,
    tolower_eq_iff.
  reflexivity.
Qed.

Lemma strings_match_loop_spec (a b : string) (n : nat) :
  forall i,
    strings_match_loop a b i n = true <->
    (forall j, i <= j < i + n -> char_equiv (Str.at_ a j) (Str.at_ b j)).
Proof.
  induction n as [|n IH]; intros i; simpl.
  - split; [intros _ j Hj; lia | reflexivity].
  - pose proof (char_step_spec (Str.at_ a i) (Str.at_ b i)) as Hc.
    destruct (is_dash (Str.at_ a i) && is_dash (Str.at_ b i)) eqn:Hd;
      [| destruct (Ascii.eqb (Str.tolower (Str.at_ a i))
                             (Str.tolower (Str.at_ b i))) eqn:He];
      simpl in *.
    + rewrite IH. split.
      * intros H j Hj. destruct (Nat.eq_dec j i) as [->|Hne].
        -- apply Hc; reflexivity.
        -- apply H; lia.
      * intros H j Hj. apply H; lia.
    + rewrite IH. split.
      * intros H j Hj. destruct (Nat.eq_dec j i) as [->|Hne].
        -- apply Hc; reflexivity.
        -- apply H; lia.
      * intros H j Hj. apply H; lia.
    + split; [discriminate|].
      intros H. apply Hc. apply H. lia.
Qed.

Lemma strings_match_spec (a b : string) :
  strings_match a b = true <-> exact_match a b.
Proof.
  unfold strings_match, exact_match.
  destruct (String.length a =? String.length b)%nat eqn:Hlen; simpl.
  - apply Nat.eqb_eq in Hlen. rewrite strings_match_loop_spec.
    split.
    + intros H; split; [assumption|]. intros i Hi. apply H; lia.
    + intros [_ H] j Hj. apply H; lia.
  - apply Nat.eqb_neq in Hlen. split; [discriminate|].
    intros [H _]; contradiction.
Qed.

Lemma name_matches_string_spec (names_ : list string) (pattern : string) :
  name_matches_string names_ pattern = true <->
  exists a, In a names_ /\ exact_match a pattern.
Proof.
  induction names_ as [|n rest IH]; simpl.
  - split; [discriminate | intros (a & [] & _)].
  - destruct (strings_match n pattern) eqn:Hm.
    + split; [|reflexivity]. intros _. exists n.
      split; [now left | now apply strings_match_spec].
    + rewrite IH. split.
      * intros (a & Ha & Hx). exists a; auto.
      * intros (a & [<-|Ha] & Hx).
        -- apply strings_match_spec in Hx. congruence.
        -- exists a; auto.
Qed.

(** C3: for a pattern without ['*'], [name_matches] returns (it does not
    throw and writes nothing), and it returns [true] exactly when some
    alias has the pattern's length and agrees with it at every position,
    dash and underscore being interchangeable and the other characters
    compared case-insensitively. *)
Theorem name_matches_exact
  (re : regex_engine) (names_ : list string) (pattern : string)
  (out : console) :
  Str.contains "*" pattern = false ->
  exists b : bool,
    name_matches re names_ pattern out = (Ret b, out) /\
    (b = true <-> exists a, In a names_ /\ exact_match a pattern).
Proof.
  intros Hstar. unfold name_matches. rewrite Hstar.
  exists (name_matches_string names_ pattern). split.
  - reflexivity.
  - apply name_matches_string_spec.
Qed.

Lemma name_matches_exact_witness :
  Str.contains "*" "Boost_DI" = false /\
  exists b : bool,
    name_matches GlobEngine.engine ["boost-di"; "boostdi"; "boost_di"]
      "Boost_DI" [] = (Ret b, []) /\
    (b = true <->
     exists a, In a ["boost-di"; "boostdi"; "boost_di"] /\
               exact_match a "Boost_DI").
Proof.
  split; [reflexivity|].
  apply (@name_matches_exact GlobEngine.engine
           ["boost-di"; "boostdi"; "boost_di"] "Boost_DI" []).
  reflexivity.
Defined.

(** C4: when the pattern contains ['*'] and the pattern obtained by
    replacing ['*'] with ['.*'] and ['_'] with ['-'] does not compile,
    [name_matches] writes the "bad glob" diagnostic and then throws
    [bailed]; in particular it does not return [false]. *)
Theorem name_matches_bad_glob_bails
  (re : regex_engine) (names_ : list string) (pattern : string)
  (out : console) :
  Str.contains "*" pattern = true ->
  regex_icase re
    (Str.replace_all (Str.replace_all pattern "*" ".*") "_" "-") = None ->
  name_matches re names_ pattern out =
    (Throw bailed, (out ++ [bad_glob_message pattern])%list).
Proof.
  intros Hstar Hbad.
  unfold name_matches, name_matches_glob, Eff.try_catch, Eff.bind.
  rewrite Hstar, Hbad. reflexivity.
Qed.

Lemma name_matches_bad_glob_bails_witness :
  Str.contains "*" "boost*(" = true /\
  regex_icase GlobEngine.engine
    (Str.replace_all (Str.replace_all "boost*(" "*" ".*") "_" "-") = None /\
  name_matches GlobEngine.engine ["boost_di"] "boost*(" [] =
    (Throw bailed, [bad_glob_message "boost*("]).
Proof.
  split; [reflexivity|]. split; [reflexivity|].
  apply (@name_matches_bad_glob_bails GlobEngine.engine
           ["boost_di"] "boost*(" []); reflexivity.
Defined.

End MatchingFacts.

(** ** Clean flags *)

Section CleanFacts.

Open Scope Z_scope.

Lemma is_set_pow2 (c k : Z) :
  0 <= k -> clean.is_set c (2 ^ k) = Z.testbit c k.
Proof.
  intros Hk. unfold clean.is_set.
  assert (Hland : Z.land c (2 ^ k) = if Z.testbit c k then 2 ^ k else 0).
  { apply Z.bits_inj'. intros n Hn.
    rewrite Z.land_spec, Z.pow2_bits_eqb by assumption.
    destruct (Z.eqb_spec k n) as [->|Hne].
    - destruct (Z.testbit c n) eqn:Hc; simpl.
      + rewrite Z.pow2_bits_eqb, Z.eqb_refl by assumption. reflexivity.
      + rewrite Z.bits_0. reflexivity.
    - rewrite andb_false_r.
      destruct (Z.testbit c k).
      + rewrite Z.pow2_bits_eqb by assumption.
        symmetry. now apply Z.eqb_neq.
      + now rewrite Z.bits_0. }
  rewrite Hland. destruct (Z.testbit c k).
  - apply Z.eqb_refl.
  - apply Z.eqb_neq. pose proof (Z.pow_pos_nonneg 2 k). lia.
Qed.

(** Bit [k] of the value [make_clean_flags] builds, for flags that are the
    bits [k1..k4]. *)
Lemma make_clean_flags_testbit (k1 k2 k3 k4 : Z) (g : conf_global.t) (k : Z) :
  0 <= k1 -> 0 <= k2 -> 0 <= k3 -> 0 <= k4 ->
  Z.testbit
    (clean.make_clean_flags
       {| clean.nothing := 0; clean.redownload := 2 ^ k1;
          clean.reextract := 2 ^ k2; clean.reconfigure := 2 ^ k3;
          clean.rebuild := 2 ^ k4 |} g) k =
  (conf_global.redownload g && (k1 =? k)
   || conf_global.reextract g && (k2 =? k)
   || conf_global.reconfigure g && (k3 =? k)
   || conf_global.rebuild g && (k4 =? k))%bool.
Proof.
  intros H1 H2 H3 H4. unfold clean.make_clean_flags. simpl.
  destruct (conf_global.redownload g), (conf_global.reextract g),
    (conf_global.reconfigure g), (conf_global.rebuild g); simpl;
    repeat rewrite Z.lor_spec;
    repeat rewrite Z.pow2_bits_eqb by assumption;
    rewrite ?Z.bits_0; simpl; rewrite ?orb_false_r; reflexivity.
Qed.

Lemma join_switched (E : clean.enumerators) (g : conf_global.t) :
  clean.to_string E (clean.make_clean_flags E g) =
  Str.join
    (map snd
       (filter (fun row => clean.is_set (clean.make_clean_flags E g)
                                        (snd (fst row)))
               (clean.flag_table E))) "|".
Proof.
  unfold clean.to_string, clean.flag_table. simpl.
  destruct (clean.is_set _ (clean.redownload E)),
    (clean.is_set _ (clean.reextract E)),
    (clean.is_set _ (clean.reconfigure E)),
    (clean.is_set _ (clean.rebuild E)); reflexivity.
Qed.

(** On a bitmask enum, a flag is set in the result exactly when its
    switch is on. *)
Lemma is_set_make_clean_flags (E : clean.enumerators) (g : conf_global.t) :
  clean.bitmask E ->
  forall row, In row (clean.flag_table E) ->
    clean.is_set (clean.make_clean_flags E g) (snd (fst row)) = fst (fst row) g.
Proof.
  intros (H0 & k1 & k2 & k3 & k4 & (P1 & P2 & P3 & P4) &
          (D12 & D13 & D14 & D23 & D24 & D34) & E1 & E2 & E3 & E4).
  destruct E as [n0 f1 f2 f3 f4]; simpl in *; subst.
  assert (X : forall a b : Z, a <> b -> (a =? b) = false /\ (b =? a) = false).
  { intros a b Hab; split; apply Z.eqb_neq; congruence. }
  destruct (X _ _ D12) as [a12 b12], (X _ _ D13) as [a13 b13],
    (X _ _ D14) as [a14 b14], (X _ _ D23) as [a23 b23],
    (X _ _ D24) as [a24 b24], (X _ _ D34) as [a34 b34].
  intros row Hrow. unfold clean.flag_table in Hrow. simpl in Hrow.
  destruct Hrow as [<-|[<-|[<-|[<-|[]]]]]; simpl;
    rewrite is_set_pow2 by assumption;
    rewrite make_clean_flags_testbit by assumption;
    rewrite ?Z.eqb_refl, ?a12, ?b12, ?a13, ?b13, ?a14, ?b14,
      ?a23, ?b23, ?a24, ?b24, ?a34, ?b34;
    rewrite ?andb_false_r, ?andb_true_r, ?orb_false_r; simpl;
    try reflexivity.
Qed.

(** C5: [make_clean_flags] returns the bitwise OR of the flags whose switch
    is on, starting from [nothing]; on a bitmask enum its set flags are
    exactly those, and [to_string] of it joins their names with a pipe in
    the order redownload, reextract, reconfigure, rebuild.  With redownload
    and rebuild on and the other two off, the result is
    [redownload | rebuild] and its string is "redownload|rebuild". *)
Theorem make_clean_flags_spec (E : clean.enumerators) (g : conf_global.t) :
  clean.bitmask E ->
  clean.make_clean_flags E g =
    fold_left Z.lor (map (fun row => snd (fst row)) (clean.switched_on E g))
              (clean.nothing E) /\
  (forall row, In row (clean.flag_table E) ->
     clean.is_set (clean.make_clean_flags E g) (snd (fst row)) =
     fst (fst row) g) /\
  clean.to_string E (clean.make_clean_flags E g) =
    Str.join (map snd (clean.switched_on E g)) "|" /\
  (conf_global.redownload g = true -> conf_global.rebuild g = true ->
   conf_global.reextract g = false -> conf_global.reconfigure g = false ->
   clean.make_clean_flags E g = Z.lor (clean.redownload E) (clean.rebuild E) /\
   clean.to_string E (clean.make_clean_flags E g) =
     "redownload|rebuild"%string).
Proof.
  intros HE.
  assert (Hfold :
    clean.make_clean_flags E g =
    fold_left Z.lor (map (fun row => snd (fst row)) (clean.switched_on E g))
              (clean.nothing E)).
  { unfold clean.make_clean_flags, clean.switched_on, clean.flag_table. simpl.
    destruct (conf_global.redownload g), (conf_global.reextract g),
      (conf_global.reconfigure g), (conf_global.rebuild g); reflexivity. }
  assert (Hstr :
    clean.to_string E (clean.make_clean_flags E g) =
    Str.join (map snd (clean.switched_on E g)) "|").
  { rewrite join_switched. unfold clean.switched_on. f_equal. f_equal.
    apply filter_ext_in. intros row Hrow.
    now apply is_set_make_clean_flags. }
  split; [exact Hfold|]. split; [now apply is_set_make_clean_flags|].
  split; [exact Hstr|].
  intros R1 R4 R2 R3. split.
  - rewrite Hfold. unfold clean.switched_on, clean.flag_table. simpl.
    rewrite R1, R2, R3, R4. simpl.
    destruct HE as (H0 & _). rewrite H0. reflexivity.
  - rewrite Hstr. unfold clean.switched_on, clean.flag_table. simpl.
    rewrite R1, R2, R3, R4. reflexivity.
Qed.

End CleanFacts.

(** ** The task: run, tools and interruption *)

Section TaskFacts.

Import task.
Open Scope string_scope.

Variable this_thread : thread_id.
Variable cfg : conf.
Variable E : clean.enumerators.
Variable patcher : string -> bool -> string -> tool.

Lemma erase_not_in (x : tool_ptr) (v : list tool_ptr) : ~ In x (erase x v).
Proof.
  unfold erase. rewrite filter_In. intros [_ H].
  rewrite Nat.eqb_refl in H. discriminate.
Qed.

Lemma hook_calls_log (s : state) (c : string) (lv : level) (msg : string) :
  hook_calls (snd (emit (Log c lv msg) s)) = hook_calls s.
Proof.
  unfold hook_calls, emit, Eff.modify. simpl.
  rewrite filter_app. simpl. apply app_nil_r.
Qed.

(** C6: [run] on a task whose [enabled()] is false returns normally after
    one debug line, and calls none of [do_clean], [do_fetch] and
    [do_build_and_install]: no hook call is added to the events, and no
    other member of the task changes. *)
Theorem run_disabled_calls_no_hook (t : class) (s : state) :
  enabled t cfg = false ->
  run this_thread cfg E patcher t s =
    (Ret tt, snd (emit (Log (cx this_thread s) debug "task is disabled") s)) /\
  hook_calls (snd (run this_thread cfg E patcher t s)) = hook_calls s /\
  List.length (hook_calls (snd (run this_thread cfg E patcher t s))) =
    List.length (hook_calls s) /\
  interrupted_ (snd (run this_thread cfg E patcher t s)) = interrupted_ s /\
  tools_ (snd (run this_thread cfg E patcher t s)) = tools_ s /\
  contexts_ (snd (run this_thread cfg E patcher t s)) = contexts_ s.
Proof.
  intros Hoff.
  assert (Hrun : run this_thread cfg E patcher t s =
            (Ret tt,
             snd (emit (Log (cx this_thread s) debug "task is disabled") s))).
  { unfold run. rewrite Hoff. reflexivity. }
  rewrite Hrun. cbn [snd].
  split; [reflexivity|].
  rewrite hook_calls_log. repeat split; reflexivity.
Qed.

(** The state in which [run_tool_impl] calls the tool's [run]: the tool is
    in [tools_], the intent is logged and the call is recorded. *)
Lemma run_tool_impl_not_interrupted (t : tool) (s : state) :
  interrupted_ s = false ->
  exists s1 : state,
    interrupted_ s1 = false /\
    tools_ s1 = (tools_ s ++ [tool_addr t])%list /\
    contexts_ s1 = contexts_ s /\
    events s1 =
      (events s ++ [Log (cx this_thread s) debug
                      ("running tool " ++ tool_name t);
                    ToolRun (tool_addr t)])%list /\
    run_tool_impl this_thread t s =
      (match fst (tool_run t (cx this_thread s1) s1) with
       | Ret _ =>
           if interrupted_ (snd (tool_run t (cx this_thread s1) s1)) then Throw interrupted
           else Ret tt
       | Throw e => Throw e
       end,
       set_tools (erase (tool_addr t) (tools_ (snd (tool_run t (cx this_thread s1) s1))))
                 (snd (tool_run t (cx this_thread s1) s1))).
Proof.
  intros Hflag. destruct s as [fl ts cs ev]. simpl in Hflag. subst fl.
  eexists
    {| interrupted_ := false;
       tools_ := (ts ++ [tool_addr t])%list;
       contexts_ := cs;
       events := (ev ++ [Log (cx this_thread
                                {| interrupted_ := false; tools_ := ts;
                                   contexts_ := cs; events := ev |}) debug
                           ("running tool " ++ tool_name t);
                         ToolRun (tool_addr t)])%list |}.
  repeat (split; [reflexivity|]).
  unfold run_tool_impl, Eff.bind, Eff.with_guard, Eff.modify, log, emit,
    check_interrupted, set_tools. cbn.
  rewrite <- app_assoc. cbn.
  destruct (tool_run t _ _) as [[[]|e] s2]; cbn; [|reflexivity].
  destruct (interrupted_ s2) eqn:H2; cbn; rewrite ?H2; reflexivity.
Qed.

Lemma run_tool_impl_interrupted (t : tool) (s : state) :
  interrupted_ s = true ->
  run_tool_impl this_thread t s =
    (Throw interrupted,
     {| interrupted_ := true;
        tools_ := erase (tool_addr t) (tools_ s ++ [tool_addr t]);
        contexts_ := contexts_ s;
        events := (events s ++ [Log (cx this_thread s) debug
                                  ("running tool " ++ tool_name t)])%list |}).
Proof.
  intros Hflag. destruct s as [fl ts cs ev]. simpl in Hflag. subst fl.
  reflexivity.
Qed.

Lemma tool_runs_log (s : state) (a : tool_ptr) (ts : list tool_ptr)
  (cs : list thread_context) (b : bool) (c : string) (lv : level)
  (msg : string) :
  tool_runs a {| interrupted_ := b; tools_ := ts; contexts_ := cs;
                 events := (events s ++ [Log c lv msg])%list |} =
  tool_runs a s.
Proof.
  unfold tool_runs. simpl. rewrite filter_app, length_app. simpl. lia.
Qed.

(** C7: [run_tool_impl] leaves the tool out of [tools_] however it ends.
    When the flag is already set it throws [interrupted] without calling
    the tool's [run].  Otherwise it calls [run] once, in a state where the
    tool is in [tools_]; an exception of [run] propagates, and a flag found
    set right after [run] gives [interrupted]; in both cases the tool has
    been erased from [tools_]. *)
Theorem run_tool_impl_registers_and_checks (t : tool) (s : state) :
  ~ In (tool_addr t) (tools_ (snd (run_tool_impl this_thread t s))) /\
  if interrupted_ s then
    fst (run_tool_impl this_thread t s) = Throw interrupted /\
    tool_runs (tool_addr t) (snd (run_tool_impl this_thread t s)) =
      tool_runs (tool_addr t) s
  else
    exists s1 : state,
      In (tool_addr t) (tools_ s1) /\
      interrupted_ s1 = false /\
      tool_runs (tool_addr t) s1 = S (tool_runs (tool_addr t) s) /\
      run_tool_impl this_thread t s =
        (match fst (tool_run t (cx this_thread s1) s1) with
         | Ret _ =>
             if interrupted_ (snd (tool_run t (cx this_thread s1) s1)) then Throw interrupted
             else Ret tt
         | Throw e => Throw e
         end,
         set_tools (erase (tool_addr t) (tools_ (snd (tool_run t (cx this_thread s1) s1))))
                   (snd (tool_run t (cx this_thread s1) s1))).
Proof.
  destruct (interrupted_ s) eqn:Hflag.
  - rewrite (run_tool_impl_interrupted t s Hflag). simpl.
    split; [apply erase_not_in|]. split; [reflexivity|].
    apply tool_runs_log.
  - destruct (run_tool_impl_not_interrupted t s Hflag)
      as (s1 & H1 & H2 & H3 & H4 & Hrun).
    split.
    + rewrite Hrun. simpl. apply erase_not_in.
    + exists s1. split; [rewrite H2; apply in_or_app; right; now left|].
      split; [exact H1|]. split; [|exact Hrun].
      unfold tool_runs. rewrite H4.
      rewrite filter_app, length_app. simpl.
      rewrite Nat.eqb_refl. simpl. lia.
Qed.

(** *** Interruption *)

Lemma for_each_tool_interrupt (ts : list tool_ptr) :
  forall s : state,
    Eff.for_each ts tool_interrupt s =
      (Ret tt,
       {| interrupted_ := interrupted_ s; tools_ := tools_ s;
          contexts_ := contexts_ s;
          events := (events s ++ map ToolInterrupt ts)%list |}).
Proof.
  induction ts as [|a ts IH]; intros s.
  - simpl. unfold Eff.ret. rewrite app_nil_r. destruct s; reflexivity.
  - simpl. unfold Eff.bind, tool_interrupt, emit, Eff.modify.
    rewrite IH. simpl. rewrite <- app_assoc. reflexivity.
Qed.

Lemma interrupt_eq (s : state) :
  interrupt s =
    (Ret tt,
     {| interrupted_ := true; tools_ := tools_ s; contexts_ := contexts_ s;
        events := (events s ++ map ToolInterrupt (tools_ s))%list |}).
Proof.
  unfold interrupt, Eff.bind, Eff.modify, Eff.gets. simpl.
  rewrite for_each_tool_interrupt. reflexivity.
Qed.

Lemma interrupt_all_eq (registered : bool) (s : state) :
  interrupt_all registered s =
    (Ret tt,
     if registered then
       {| interrupted_ := true; tools_ := tools_ s;
          contexts_ := contexts_ s;
          events := ((events s ++ [InterruptAll]) ++
                     map ToolInterrupt (tools_ s))%list |}
     else
       {| interrupted_ := interrupted_ s; tools_ := tools_ s;
          contexts_ := contexts_ s;
          events := (events s ++ [InterruptAll])%list |}).
Proof.
  unfold interrupt_all, Eff.bind. cbn [emit Eff.modify].
  destruct registered; [|reflexivity].
  rewrite interrupt_eq. reflexivity.
Qed.

(** What the handler of [bailed] in [running_from_thread] does to the
    task itself. *)
Lemma bailed_handler_eq (msg : string) (registered : bool) (s : state) :
  Eff.bind (emit (Log gcx error msg)) (fun _ => interrupt_all registered) s =
    (Ret tt,
     if registered then
       {| interrupted_ := true; tools_ := tools_ s;
          contexts_ := contexts_ s;
          events := (((events s ++ [Log gcx error msg]) ++ [InterruptAll]) ++
                     map ToolInterrupt (tools_ s))%list |}
     else
       {| interrupted_ := interrupted_ s; tools_ := tools_ s;
          contexts_ := contexts_ s;
          events := ((events s ++ [Log gcx error msg]) ++
                     [InterruptAll])%list |}).
Proof.
  unfold Eff.bind at 1. cbn [emit Eff.modify].
  rewrite interrupt_all_eq. destruct registered; reflexivity.
Qed.

Lemma bailed_handler_view {W : Type} (V : view W) (msg : string)
  (registered : bool) (w : W) :
  Eff.bind
    (lift V (Eff.bind (emit (Log gcx error msg))
                      (fun _ => interrupt_all registered)))
    (fun _ => Eff.modify (others V)) w =
  (Ret tt,
   others V
     (put V
        (if registered then
           {| interrupted_ := true; tools_ := tools_ (get V w);
              contexts_ := contexts_ (get V w);
              events := (((events (get V w) ++ [Log gcx error msg]) ++
                          [InterruptAll]) ++
                         map ToolInterrupt (tools_ (get V w)))%list |}
         else
           {| interrupted_ := interrupted_ (get V w);
              tools_ := tools_ (get V w);
              contexts_ := contexts_ (get V w);
              events := ((events (get V w) ++ [Log gcx error msg]) ++
                         [InterruptAll])%list |})
        w)).
Proof.
  unfold Eff.bind at 1. unfold lift. rewrite bailed_handler_eq. reflexivity.
Qed.

(** How the flag survives the building blocks of the monad. *)
Lemma keeps_flag_ret {A : Type} (a : A) : keeps_flag (Eff.ret a).
Proof. intros s H; exact H. Qed.

Lemma keeps_flag_throw {A : Type} (e : exn) : keeps_flag (@Eff.throw _ A e).
Proof. intros s H; exact H. Qed.

Lemma keeps_flag_bind {A B : Type} (m : Eff.M state A) (k : A -> Eff.M state B) :
  keeps_flag m -> (forall a, keeps_flag (k a)) -> keeps_flag (Eff.bind m k).
Proof.
  intros Hm Hk s Hs. unfold Eff.bind.
  specialize (Hm s Hs). destruct (m s) as [[a|e] s']; simpl in *.
  - now apply Hk.
  - exact Hm.
Qed.

Lemma keeps_flag_modify (f : state -> state) :
  (forall s, interrupted_ s = true -> interrupted_ (f s) = true) ->
  keeps_flag (Eff.modify f).
Proof. intros Hf s Hs. simpl. now apply Hf. Qed.

Lemma keeps_flag_emit (e : event) : keeps_flag (emit e).
Proof. apply keeps_flag_modify. intros s Hs; exact Hs. Qed.

Lemma keeps_flag_log (lv : level) (msg : string) :
  keeps_flag (log this_thread lv msg).
Proof. intros s Hs. unfold log. now apply keeps_flag_emit. Qed.

Lemma keeps_flag_with_guard {A : Type} (cleanup : state -> state)
  (m : Eff.M state A) :
  (forall s, interrupted_ s = true -> interrupted_ (cleanup s) = true) ->
  keeps_flag m -> keeps_flag (Eff.with_guard cleanup m).
Proof.
  intros Hc Hm s Hs. unfold Eff.with_guard.
  specialize (Hm s Hs). destruct (m s) as [r s']; simpl in *. now apply Hc.
Qed.

Lemma keeps_flag_try_catch {A : Type} (m : Eff.M state A)
  (handler : exn -> option (Eff.M state A)) :
  keeps_flag m ->
  (forall e h, handler e = Some h -> keeps_flag h) ->
  keeps_flag (Eff.try_catch m handler).
Proof.
  intros Hm Hh s Hs. unfold Eff.try_catch.
  specialize (Hm s Hs). destruct (m s) as [[a|e] s']; simpl in *;
    [exact Hm|].
  destruct (handler e) as [h|] eqn:He; [|exact Hm].
  now apply (Hh e h He).
Qed.

Lemma keeps_flag_check_interrupted : keeps_flag check_interrupted.
Proof.
  intros s Hs. unfold check_interrupted. rewrite Hs. exact Hs.
Qed.

Lemma keeps_flag_interrupt : keeps_flag interrupt.
Proof. intros s _. rewrite interrupt_eq. reflexivity. Qed.

Lemma keeps_flag_run_tool_impl (t : tool) :
  (forall c, keeps_flag (tool_run t c)) ->
  keeps_flag (run_tool_impl this_thread t).
Proof.
  intros Ht. unfold run_tool_impl.
  apply keeps_flag_bind; [apply keeps_flag_modify; auto|]. intros _.
  apply keeps_flag_with_guard; [auto|].
  repeat (apply keeps_flag_bind; [|intros ?]);
    auto using keeps_flag_log, keeps_flag_check_interrupted, keeps_flag_emit.
  intros s Hs; exact Hs.
Qed.

Section HooksKeepFlag.

Variable t : class.
Hypothesis clean_ok : forall th c, keeps_flag (do_clean t th c).
Hypothesis fetch_ok : forall th, keeps_flag (do_fetch t th).
Hypothesis build_ok : forall th, keeps_flag (do_build_and_install t th).
Hypothesis patcher_ok :
  forall n b p c, keeps_flag (tool_run (patcher n b p) c).

Lemma keeps_flag_clean_task : keeps_flag (clean_task this_thread cfg E t).
Proof.
  unfold clean_task.
  destruct (negb (conf_global.clean (global cfg)));
    [apply keeps_flag_ret|].
  destruct (negb (enabled t cfg)); [apply keeps_flag_log|].
  destruct (negb _); [|apply keeps_flag_ret].
  repeat (apply keeps_flag_bind; [|intros _]);
    auto using keeps_flag_log, keeps_flag_emit.
Qed.

Lemma keeps_flag_fetch : keeps_flag (fetch this_thread cfg patcher t).
Proof.
  unfold fetch.
  destruct (negb (conf_global.fetch (global cfg)));
    [apply keeps_flag_ret|].
  destruct (negb (enabled t cfg)); [apply keeps_flag_log|].
  repeat (apply keeps_flag_bind; [|intros _]);
    auto using keeps_flag_log, keeps_flag_emit, keeps_flag_check_interrupted.
  destruct (negb _); [|apply keeps_flag_ret].
  apply keeps_flag_bind; [apply keeps_flag_log|intros _].
  now apply keeps_flag_run_tool_impl.
Qed.

Lemma keeps_flag_build_and_install :
  keeps_flag (build_and_install this_thread cfg t).
Proof.
  unfold build_and_install.
  destruct (negb (conf_global.build (global cfg)));
    [apply keeps_flag_ret|].
  destruct (negb (enabled t cfg)); [apply keeps_flag_log|].
  repeat (apply keeps_flag_bind; [|intros _]);
    auto using keeps_flag_log, keeps_flag_emit.
Qed.

Lemma keeps_flag_run : keeps_flag (run this_thread cfg E patcher t).
Proof.
  unfold run.
  destruct (negb (enabled t cfg)); [apply keeps_flag_log|].
  repeat (apply keeps_flag_bind; [|intros _]);
    auto using keeps_flag_log, keeps_flag_check_interrupted,
      keeps_flag_clean_task, keeps_flag_fetch, keeps_flag_build_and_install.
Qed.

End HooksKeepFlag.

Lemma keeps_flag_running_from_thread (t : class) (thread_name : string)
  (f : Eff.M state unit) :
  keeps_flag f ->
  keeps_flag (running_from_thread this_thread t whole thread_name f).
Proof.
  intros Hf. unfold running_from_thread.
  apply keeps_flag_try_catch.
  - apply keeps_flag_bind; [|intros _].
    + intros s Hs. unfold lift, whole. simpl. exact Hs.
    + apply keeps_flag_with_guard; [|exact Hf].
      intros s Hs. exact Hs.
  - intros e h He. destruct e; inversion He; subst; clear He.
    + apply keeps_flag_bind; [|intros _; intros s Hs; exact Hs].
      intros s Hs. unfold lift, whole. cbn [get put].
      rewrite bailed_handler_eq. cbn [snd].
      destruct (negb _); [reflexivity|exact Hs].
    + apply keeps_flag_ret.
Qed.

(** C8: [interrupt] returns normally from every state; it sets the flag,
    leaves [tools_] and [contexts_] as they are and forwards one
    [interrupt()] to each entry of [tools_] at the time of the call, in
    order.  A second call does the same again and leaves the flag set.
    No operation of the task clears the flag: it stays set across
    [interrupt], [check_interrupted], [run_tool_impl], adding and removing
    a context, [running_from_thread] and the lifecycle functions, as long
    as the hooks, tools and callables they call leave it alone.  This is
    [task::interrupt]; the override of a parallel group is
    [parallel_tasks.interrupt]. *)
Theorem interrupt_sets_flag_and_forwards (s : state) :
  let s1 :=
    {| interrupted_ := true; tools_ := tools_ s; contexts_ := contexts_ s;
       events := (events s ++ map ToolInterrupt (tools_ s))%list |} in
  let s2 :=
    {| interrupted_ := true; tools_ := tools_ s; contexts_ := contexts_ s;
       events := (events s1 ++ map ToolInterrupt (tools_ s))%list |} in
  interrupt s = (Ret tt, s1) /\
  interrupt s1 = (Ret tt, s2) /\
  Eff.bind interrupt (fun _ => interrupt) s = (Ret tt, s2) /\
  keeps_flag interrupt /\
  keeps_flag check_interrupted /\
  (forall n, keeps_flag (add_context_for_this_thread this_thread n)) /\
  (forall s', interrupted_ (remove_context_for_this_thread this_thread s') =
              interrupted_ s') /\
  (forall t, (forall c, keeps_flag (tool_run t c)) ->
             keeps_flag (run_tool_impl this_thread t)) /\
  (forall t n f, keeps_flag f ->
                 keeps_flag (running_from_thread this_thread t whole n f)) /\
  (forall t,
     (forall th c, keeps_flag (do_clean t th c)) ->
     (forall th, keeps_flag (do_fetch t th)) ->
     (forall th, keeps_flag (do_build_and_install t th)) ->
     (forall n b p c, keeps_flag (tool_run (patcher n b p) c)) ->
     keeps_flag (clean_task this_thread cfg E t) /\
     keeps_flag (fetch this_thread cfg patcher t) /\
     keeps_flag (build_and_install this_thread cfg t) /\
     keeps_flag (run this_thread cfg E patcher t)).
Proof.
  intros s1 s2.
  assert (H1 : interrupt s = (Ret tt, s1)) by apply interrupt_eq.
  assert (H2 : interrupt s1 = (Ret tt, s2)) by apply interrupt_eq.
  split; [exact H1|]. split; [exact H2|].
  split; [unfold Eff.bind; rewrite H1; exact H2|].
  split; [apply keeps_flag_interrupt|].
  split; [apply keeps_flag_check_interrupted|].
  split; [intros n s' Hs'; exact Hs'|].
  split; [reflexivity|].
  split; [apply keeps_flag_run_tool_impl|].
  split; [intros t n f; apply keeps_flag_running_from_thread|].
  intros t Hc Hf Hb Hp.
  auto using keeps_flag_clean_task, keeps_flag_fetch,
    keeps_flag_build_and_install, keeps_flag_run.
Qed.

End TaskFacts.

(** A disabled boost-di task, on the thread that created it. *)
Lemma run_disabled_calls_no_hook_witness :
  let t := boost_di.make in
  let s := task.construct 0 boost_di.names in
  task.enabled t boost_di.all_disabled = false /\
  task.run 0 boost_di.all_disabled clean.standard boost_di.patcher t s =
    (Ret tt,
     snd (task.emit (task.Log "boost-di" task.debug "task is disabled") s)) /\
  task.hook_calls
    (snd (task.run 0 boost_di.all_disabled clean.standard
            boost_di.patcher t s)) = [].
Proof.
  intros t s.
  assert (Hoff : task.enabled t boost_di.all_disabled = false)
    by reflexivity.
  split; [exact Hoff|].
  destruct (run_disabled_calls_no_hook 0 boost_di.all_disabled
              clean.standard boost_di.patcher t s Hoff)
    as (Hrun & Hcalls & _).
  split; [exact Hrun | exact Hcalls].
Defined.

(** The same task enabled: all three hooks are called, in order. *)
Example run_enabled_calls_hooks :
  task.hook_calls
    (snd (task.run 0 boost_di.all_enabled clean.standard boost_di.patcher
            (boost_di.make) (task.construct 0 boost_di.names))) =
  [task.DoClean 9; task.DoFetch; task.DoBuildAndInstall].
Proof. reflexivity. Qed.

(** [run_tool_impl] with the flag set: the tool does not run. *)
Example run_tool_interrupted :
  let s := task.set_interrupted true (task.construct 0 boost_di.names) in
  fst (task.run_tool_impl 0 boost_di.git_clone s) = Throw interrupted /\
  task.tool_runs 1 (snd (task.run_tool_impl 0 boost_di.git_clone s)) = 0 /\
  task.tools_ (snd (task.run_tool_impl 0 boost_di.git_clone s)) = [].
Proof. repeat split; reflexivity. Qed.

(** The usual enumerators, with redownload and rebuild switched on. *)
Lemma make_clean_flags_spec_witness :
  clean.bitmask clean.standard /\
  clean.make_clean_flags clean.standard boost_di.redownload_and_rebuild = 9%Z /\
  clean.to_string clean.standard
    (clean.make_clean_flags clean.standard boost_di.redownload_and_rebuild) =
  "redownload|rebuild"%string.
Proof.
  assert (B : clean.bitmask clean.standard).
  { split; [reflexivity|]. exists 0%Z, 1%Z, 2%Z, 3%Z.
    repeat split; try lia; try reflexivity. }
  split; [exact B|].
  destruct (make_clean_flags_spec boost_di.redownload_and_rebuild B)
    as (_ & _ & _ & Hex).
  destruct (Hex eq_refl eq_refl eq_refl eq_refl) as [H1 H2].
  split; [rewrite H1; reflexivity | exact H2].
Defined.

(** ** The context registry *)

Section RegistryFacts.

Import task.

Lemma erase_first_tids (t : thread_id) (v : list thread_context) :
  NoDup (map tid v) ->
  NoDup (map tid (erase_first t v)) /\
  forall x, In x (map tid (erase_first t v)) <-> In x (map tid v) /\ x <> t.
Proof.
  induction v as [|td rest IH]; simpl; intros Hnd.
  - split; [constructor|]. intros x; tauto.
  - inversion Hnd as [|? ? Hnotin Hrest]; subst.
    destruct (Nat.eqb_spec (tid td) t) as [Heq|Hne].
    + split; [exact Hrest|]. intros x. split.
      * intros Hx. split; [now right|]. intros ->. now subst.
      * intros [[Hx|Hx] Hxt]; [congruence|exact Hx].
    + destruct (IH Hrest) as [IHnd IHin]. split.
      * simpl. constructor; [|exact IHnd].
        intros Hin. apply IHin in Hin. tauto.
      * intros x. simpl. rewrite IHin. split.
        -- intros [Hx|[Hx Hxt]]; [split; [now left|congruence]|tauto].
        -- intros [[Hx|Hx] Hxt]; [now left|tauto].
Qed.




(** [running_from_thread] by the way the callable ends. *)
Lemma running_from_thread_eq {W : Type} (V : view W)
  (this_thread : thread_id) (t : class) (thread_name : string)
  (f : Eff.M W unit) (w : W) :
  let w1 :=
    snd (lift V (add_context_for_this_thread this_thread thread_name) w) in
  let w2 :=
    over V (remove_context_for_this_thread this_thread) (snd (f w1)) in
  let msg := (name t ++ " bailed out, interrupting all tasks")%string in
  running_from_thread this_thread t V thread_name f w =
    match fst (f w1) with
    | Ret _ => (Ret tt, w2)
    | Throw bailed =>
        (Ret tt,
         others V
           (put V
              (snd (Eff.bind (emit (Log gcx error msg))
                      (fun _ =>
                         interrupt_all (negb (String.eqb (name t) "parallel")))
                      (get V w2)))
              w2))
    | Throw interrupted => (Ret tt, w2)
    | Throw std_exception => (Throw std_exception, w2)
    end.
Proof.
  intros w1 w2 msg. subst w1 w2 msg.
  unfold running_from_thread, Eff.try_catch.
  unfold Eff.bind at 1. unfold Eff.with_guard, lift at 1.
  cbn [fst snd add_context_for_this_thread Eff.modify].
  destruct (f _) as [[[]|[| |]] w2]; cbn [fst snd]; try reflexivity.
  rewrite bailed_handler_view, bailed_handler_eq. reflexivity.
Qed.

(** What [running_from_thread] does to the registry, whatever [f] does
    and however it ends. *)
Lemma running_from_thread_contexts {W : Type} (V : view W)
  (this_thread : thread_id) (t : class) (thread_name : string)
  (f : Eff.M W unit) (w : W) :
  let w1 :=
    snd (lift V (add_context_for_this_thread this_thread thread_name) w) in
  contexts_ (get V w1) =
    (contexts_ (get V w) ++
       [ {| tid := this_thread; cx_name := thread_name |} ])%list /\
  contexts_
    (get V (snd (running_from_thread this_thread t V thread_name f w))) =
  erase_first this_thread (contexts_ (get V (snd (f w1)))).
Proof.
  unfold running_from_thread, Eff.try_catch.
  unfold Eff.bind at 1. unfold Eff.with_guard, lift at 1 2,
    add_context_for_this_thread, Eff.modify, over,
    remove_context_for_this_thread.
  cbn [fst snd]. rewrite get_put. split; [reflexivity|].
  change (fun s : W => (Ret tt, others V s)) with (Eff.modify (others V)).
  destruct (f _) as [[[]|[| |]] w2]; cbn [fst snd contexts_ set_contexts];
    rewrite ?bailed_handler_view; cbn [fst snd];
    rewrite ?others_get, ?get_put; cbn [contexts_ set_contexts];
    try reflexivity.
  - destruct (negb _); reflexivity.
  - unfold Eff.ret. cbn [snd]. now rewrite get_put.
Qed.

End RegistryFacts.

(** ** The parallel group *)

Section ParallelFacts.

Import parallel_tasks.

Variable C : Type.
Variable cfg : conf.
Variable E : clean.enumerators.
Variable patcher : string -> bool -> string -> task.tool.
Variable children_ : list (vtable C).









(** [parallel_tasks::interrupt] hands the call to the children and leaves
    the members of the group itself as they are. *)
Lemma parallel_interrupt_leaves_group (ts : list (vtable C)) :
  forall (i : nat) (w : world C),
    self (snd (interrupt_from i ts w)) = self w.
Proof.
  induction ts as [|t rest IH]; intros i w; simpl.
  - reflexivity.
  - unfold Eff.bind, on_child.
    destruct (v_interrupt t (child w i)) as [[[]|e] s']; [|reflexivity].
    rewrite IH. reflexivity.
Qed.

End ParallelFacts.

(** ** The context registry and its threads *)

Section RegistryThreads.

Import task.




End RegistryThreads.

(** A group of two boost-di tasks under a configuration that disables
    every task: the group is enabled all the same, and its [run] starts
    and joins two threads, in which the children skip themselves. *)
Example parallel_group_runs_disabled_children :
  let kids := map parallel_tasks.plain [boost_di.make; boost_di.make] in
  let w :=
    {| parallel_tasks.self := task.construct 0 ["parallel"%string];
       parallel_tasks.child := fun _ => task.construct 0 boost_di.names;
       parallel_tasks.threads_ := [];
       parallel_tasks.next_thread_id := 1 |} in
  let r := parallel_tasks.run boost_di.all_disabled clean.standard
             boost_di.patcher kids w in
  parallel_tasks.enabled boost_di.all_disabled = true /\
  fst r = Ret tt /\
  task.events (parallel_tasks.self (snd r)) =
    [task.StartThread 1 "boost-di"; task.StartThread 2 "boost-di";
     task.JoinThread 1; task.JoinThread 2] /\
  task.events (parallel_tasks.child (snd r) 0) =
    [task.RegisterTask "boost-di";
     task.Log "?" task.debug "task is disabled"] /\
  task.contexts_ (parallel_tasks.self (snd r)) =
    [ {| task.tid := 0; task.cx_name := "parallel" |} ].
Proof. repeat split; reflexivity. Qed.

(** ** The git tool *)

Section GitFacts.

Import git.

Variable git_binary : process -> list path -> bool * list path.
Variable g : conf_global.t.
Variable self : git.t.

Lemma path_eqb_true (p : path) :
  forall q, path_eqb p q = true -> p = q.
Proof.
  induction p as [|a p IH]; intros [|b q]; simpl; try discriminate.
  - reflexivity.
  - rewrite andb_true_iff, String.eqb_eq. intros [-> H].
    f_equal. now apply IH.
Qed.

Lemma is_prefix_app (p x : path) : is_prefix p (p ++ x)%list = true.
Proof.
  induction p as [|a p IH]; simpl; [reflexivity|].
  now rewrite String.eqb_refl, IH.
Qed.

(** Once a directory is deleted nothing below it exists. *)
Lemma exists_after_delete (fs : list path) (p x : path) :
  exists_ (filter (fun q => negb (is_prefix p q)) fs) (p ++ x)%list = false.
Proof.
  unfold exists_. induction fs as [|q fs IH]; simpl; [reflexivity|].
  destruct (is_prefix p q) eqn:Hpre; simpl; [exact IH|].
  rewrite IH, orb_false_r.
  destruct (path_eqb (p ++ x)%list q) eqn:Heq; [|reflexivity].
  apply path_eqb_true in Heq. subst q.
  rewrite is_prefix_app in Hpre. discriminate.
Qed.

(** [do_clone_or_pull] executes one process: the pull when the marker is
    there, the clone when it is not. *)
Lemma do_clone_or_pull_executes (w : world) :
  executed (snd (do_clone_or_pull git_binary self w)) =
    (executed w ++
       [if exists_ (files w) (where_ self ++ [".git"])%list
        then pull_process self else clone_process self])%list.
Proof.
  unfold do_clone_or_pull, do_clone, do_pull, execute_and_join, write_log,
    Eff.bind, Eff.gets, Eff.modify, Eff.ret. cbn.
  destruct (exists_ (files w) (where_ self ++ [".git"])%list); cbn.
  - destruct (git_binary (pull_process self) (files w)) as [[] fs'];
      reflexivity.
  - destruct (git_binary (clone_process self) (files w)) as [[] fs'];
      reflexivity.
Qed.

Lemma parameters_present :
  url_ self <> EmptyString -> where_ self <> [] ->
  String.eqb (url_ self) EmptyString || path_eqb (where_ self) [] = false.
Proof.
  intros Hu Hw. apply orb_false_iff. split.
  - now apply String.eqb_neq.
  - destruct (where_ self); [contradiction|reflexivity].
Qed.

(** [do_run] in clone-or-pull mode, up to the call of
    [do_clone_or_pull]. *)
Lemma do_run_clone_or_pull (w : world) :
  op_ self = clone_or_pull2 ->
  url_ self <> EmptyString -> where_ self <> [] ->
  do_run git_binary g self w =
    do_clone_or_pull git_binary self
      (if conf_global.redownload g || conf_global.reextract g
       then snd (delete_directory (where_ self)
                   (snd (write_log task.trace
                           "deleting directory controlled by git" w)))
       else w).
Proof.
  intros Hop Hu Hw. unfold do_run.
  rewrite (parameters_present Hu Hw), Hop.
  unfold Eff.bind at 1. unfold Eff.ret at 1.
  destruct (conf_global.redownload g || conf_global.reextract g);
    reflexivity.
Qed.

Lemma executed_after_wipe (w : world) :
  let w0 := snd (delete_directory (where_ self)
                   (snd (write_log task.trace
                           "deleting directory controlled by git" w))) in
  executed w0 = executed w /\
  exists_ (files w0) (where_ self ++ [".git"])%list = false.
Proof.
  split; [reflexivity|]. cbn. apply exists_after_delete.
Qed.

Lemma count_appended (f : process -> bool) (l : list process) (p : process) :
  List.length (filter f (l ++ [p])) =
  List.length (filter f l) + (if f p then 1 else 0).
Proof.
  rewrite filter_app, length_app. simpl. destruct (f p); reflexivity.
Qed.

(** C1, as the code has it: a run in clone-or-pull mode with a URL and a
    destination executes exactly one process.  When neither redownload
    nor reextract is set, it is the clone when the destination has no
    [.git] and the pull when it has one.  When redownload or reextract is
    set, the destination is deleted first and it is the clone, whether or
    not a [.git] was there.  [do_clone_or_pull] by itself decides on the
    files it finds: the pull with a [.git], the clone without. *)
Theorem clone_or_pull_executes_one_operation (w : world) :
  op_ self = clone_or_pull2 ->
  url_ self <> EmptyString ->
  where_ self <> [] ->
  let marker := exists_ (files w) (where_ self ++ [".git"])%list in
  let wiped := conf_global.redownload g || conf_global.reextract g in
  let w' := snd (do_run git_binary g self w) in
  executed w' =
    (executed w ++
       [if negb wiped && marker then pull_process self
        else clone_process self])%list /\
  clones w' = clones w + (if negb wiped && marker then 0 else 1) /\
  pulls w' = pulls w + (if negb wiped && marker then 1 else 0) /\
  (forall w0 : world,
     executed (snd (do_clone_or_pull git_binary self w0)) =
       (executed w0 ++
          [if exists_ (files w0) (where_ self ++ [".git"])%list
           then pull_process self else clone_process self])%list).
Proof.
  intros Hop Hu Hw marker wiped w'.
  assert (Hexec :
    executed w' =
      (executed w ++
         [if negb wiped && marker then pull_process self
          else clone_process self])%list).
  { subst w'. rewrite (do_run_clone_or_pull w Hop Hu Hw).
    rewrite do_clone_or_pull_executes. fold wiped.
    destruct wiped; cbv iota.
    - destruct (executed_after_wipe w) as [He Hm]. cbv zeta in He, Hm.
      rewrite He, Hm. reflexivity.
    - reflexivity. }
  split; [exact Hexec|].
  unfold clones, pulls. rewrite Hexec, !count_appended.
  destruct (negb wiped && marker);
    (split; [reflexivity|split; [reflexivity|]]);
    apply do_clone_or_pull_executes.
Qed.

(** C2: with an empty URL or an empty destination, [do_run] reports
    "git missing parameters" and throws [bailed]; no directory has been
    deleted and no process executed, whatever the mode and the
    switches. *)
Theorem do_run_missing_parameters_bails (w : world) :
  url_ self = EmptyString \/ where_ self = [] ->
  do_run git_binary g self w =
    (Throw bailed,
     {| files := files w; executed := executed w;
        log := (log w ++ [(task.error, "git missing parameters")])%list |}) /\
  untouched w (snd (do_run git_binary g self w)).
Proof.
  intros Hmissing.
  assert (Hrun :
    do_run git_binary g self w =
      (Throw bailed,
       {| files := files w; executed := executed w;
          log := (log w ++ [(task.error, "git missing parameters")])%list |})).
  { unfold do_run.
    assert (Hempty :
      String.eqb (url_ self) EmptyString || path_eqb (where_ self) [] = true).
    { destruct Hmissing as [-> | ->]; [reflexivity|].
      apply orb_true_r. }
    rewrite Hempty. reflexivity. }
  split; [exact Hrun|]. rewrite Hrun. split; reflexivity.
Qed.

End GitFacts.

(** The scenario of the specification: an empty destination, and the same
    destination once it holds a checkout. *)
Lemma clone_or_pull_executes_one_operation_witness :
  let self :=
    {| git.op_ := git.clone_or_pull2;
       git.url_ := "https://example/repo.git";
       git.branch_ := "main";
       git.where_ := ["build"; "di"]%string |} in
  let w :=
    {| git.files := [["build"]%string]; git.executed := []; git.log := [] |} in
  let w' := snd (git.do_run git.fake_git boost_di.no_redownload self w) in
  let w'' := snd (git.do_run git.fake_git boost_di.no_redownload self w') in
  git.op_ self = git.clone_or_pull2 /\
  git.url_ self <> EmptyString /\
  git.where_ self <> [] /\
  git.executed w' = [git.clone_process self] /\
  git.executed w'' = [git.clone_process self; git.pull_process self].
Proof.
  intros self w w' w''.
  assert (Hop : git.op_ self = git.clone_or_pull2) by reflexivity.
  assert (Hu : git.url_ self <> EmptyString) by discriminate.
  assert (Hw : git.where_ self <> []) by discriminate.
  split; [exact Hop|]. split; [exact Hu|]. split; [exact Hw|].
  split.
  - exact (proj1 (clone_or_pull_executes_one_operation
                    git.fake_git boost_di.no_redownload self w Hop Hu Hw)).
  - exact (proj1 (clone_or_pull_executes_one_operation
                    git.fake_git boost_di.no_redownload self w' Hop Hu Hw)).
Defined.

(** C1 without the condition on the switches fails: with redownload set
    and a destination that holds a [.git], the run executes the clone and
    no pull. *)
Lemma clone_or_pull_marker_present_but_cloned :
  let self :=
    {| git.op_ := git.clone_or_pull2;
       git.url_ := "https://example/repo.git";
       git.branch_ := "main";
       git.where_ := ["build"; "di"]%string |} in
  let w :=
    {| git.files := [["build"; "di"]; ["build"; "di"; ".git"]]%string;
       git.executed := []; git.log := [] |} in
  let w' :=
    snd (git.do_run git.fake_git boost_di.redownload_and_rebuild self w) in
  git.exists_ (git.files w) (git.where_ self ++ [".git"%string]) = true /\
  git.url_ self <> EmptyString /\
  git.where_ self <> [] /\
  git.executed w' = [git.clone_process self] /\
  git.clones w' = 1 /\
  git.pulls w' = 0.
Proof.
  repeat split; try reflexivity; discriminate.
Qed.

Lemma do_run_missing_parameters_bails_witness :
  let self :=
    {| git.op_ := git.clone_or_pull2;
       git.url_ := EmptyString;
       git.branch_ := "main";
       git.where_ := ["build"; "di"]%string |} in
  let w :=
    {| git.files := [["build"; "di"]; ["build"; "di"; ".git"]]%string;
       git.executed := []; git.log := [] |} in
  (git.url_ self = EmptyString \/ git.where_ self = []) /\
  fst (git.do_run git.fake_git boost_di.redownload_and_rebuild self w) =
    Throw bailed /\
  git.untouched w
    (snd (git.do_run git.fake_git boost_di.redownload_and_rebuild self w)).
Proof.
  intros self w.
  assert (H : git.url_ self = EmptyString \/ git.where_ self = [])
    by (left; reflexivity).
  split; [exact H|].
  destruct (do_run_missing_parameters_bails git.fake_git
              boost_di.redownload_and_rebuild self w H) as [Hrun Hsame].
  split; [rewrite Hrun; reflexivity | exact Hsame].
Defined.

(** Two enabled boost-di tasks in a group: neither crashes, so the group
    runs both, each on its own thread. *)
Example boost_di_children_do_not_crash :
  parallel_tasks.no_crash boost_di.all_enabled clean.standard
    boost_di.patcher (map parallel_tasks.plain [boost_di.make; boost_di.make]).
Proof.
  intros i t tid s Hnth.
  assert (Ht : t = parallel_tasks.plain boost_di.make).
  { destruct i as [|[|i]]; simpl in Hnth;
      [congruence|congruence|destruct i; discriminate]. }
  subst t. destruct s as [[] ts cs ev]; cbn; discriminate.
Qed.

Example boost_di_children_do_not_bail_out :
  parallel_tasks.no_bail_out boost_di.all_enabled clean.standard
    boost_di.patcher (map parallel_tasks.plain [boost_di.make; boost_di.make]).
Proof.
  intros i t tid s Hnth.
  assert (Ht : t = parallel_tasks.plain boost_di.make).
  { destruct i as [|[|i]]; simpl in Hnth;
      [congruence|congruence|destruct i; discriminate]. }
  subst t. unfold task.interrupt_all_calls, parallel_tasks.plain,
    parallel_tasks.v_run, parallel_tasks.v_interrupt_all_calls.
  destruct s as [[] ts cs ev]; cbn; (split; [discriminate|]);
    rewrite ?filter_app; cbn; rewrite ?app_nil_r; reflexivity.
Qed.

Example parallel_group_runs_enabled_children :
  let kids := map parallel_tasks.plain [boost_di.make; boost_di.make] in
  let w :=
    {| parallel_tasks.self := task.construct 0 ["parallel"%string];
       parallel_tasks.child := fun _ => task.construct 0 boost_di.names;
       parallel_tasks.threads_ := [];
       parallel_tasks.next_thread_id := 1 |} in
  let r := parallel_tasks.run boost_di.all_enabled clean.standard
             boost_di.patcher kids w in
  fst r = Ret tt /\
  task.hook_calls (parallel_tasks.child (snd r) 0) =
    [task.DoClean 9; task.DoFetch; task.DoBuildAndInstall] /\
  task.hook_calls (parallel_tasks.child (snd r) 1) =
    [task.DoClean 9; task.DoFetch; task.DoBuildAndInstall] /\
  task.tool_runs 1 (parallel_tasks.child (snd r) 1) = 1 /\
  parallel_tasks.threads_ (snd r) = [].
Proof. repeat split; reflexivity. Qed.

(** A group whose first child bails out in its fetch: the thread function
    logs the error under the group's name and calls [interrupt_all], which
    sets the flag of both children (they are registered) and not that of
    the group (it is not).  The second child is still run: it is
    interrupted at the first checkpoint, after cleaning. *)
Example parallel_group_child_bails_out :
  let first : task.class :=
    {| task.names_ := ["first"%string];
       task.enabled := fun _ => true;
       task.do_clean := fun _ _ => Eff.ret tt;
       task.do_fetch := fun _ => Eff.throw bailed;
       task.do_build_and_install := fun _ => Eff.ret tt;
       task.get_source_path := EmptyString;
       task.get_prebuilt := false |} in
  let kids := map parallel_tasks.plain [first; boost_di.make] in
  let w :=
    {| parallel_tasks.self := task.construct 0 ["parallel"%string];
       parallel_tasks.child := fun i =>
         if (i =? 0)%nat then task.construct 0 ["first"%string]
         else task.construct 0 boost_di.names;
       parallel_tasks.threads_ := [];
       parallel_tasks.next_thread_id := 1 |} in
  let r := parallel_tasks.run boost_di.all_enabled clean.standard
             boost_di.patcher kids w in
  fst r = Ret tt /\
  task.events (parallel_tasks.self (snd r)) =
    [task.StartThread 1 "first"; task.StartThread 2 "boost-di";
     task.Log task.gcx task.error "parallel bailed out, interrupting all tasks";
     task.InterruptAll;
     task.JoinThread 1; task.JoinThread 2] /\
  task.interrupted_ (parallel_tasks.self (snd r)) = false /\
  task.interrupted_ (parallel_tasks.child (snd r) 0) = true /\
  task.interrupted_ (parallel_tasks.child (snd r) 1) = true /\
  task.hook_calls (parallel_tasks.child (snd r) 0) =
    [task.DoClean 9; task.DoFetch] /\
  task.hook_calls (parallel_tasks.child (snd r) 1) = [task.DoClean 9].
Proof. repeat split; reflexivity. Qed.

(** Two groups in a group.  A child of the first inner group bails out:
    the [interrupt_all] of that group's thread function reaches the child
    of the second inner group as well, which is then interrupted at its
    first checkpoint.  No group has its own flag set. *)
Example nested_group_child_bails_out :
  let first : task.class :=
    {| task.names_ := ["first"%string];
       task.enabled := fun _ => true;
       task.do_clean := fun _ _ => Eff.ret tt;
       task.do_fetch := fun _ => Eff.throw bailed;
       task.do_build_and_install := fun _ => Eff.ret tt;
       task.get_source_path := EmptyString;
       task.get_prebuilt := false |} in
  let kids :=
    [parallel_tasks.nested (map parallel_tasks.plain [first]);
     parallel_tasks.nested (map parallel_tasks.plain [boost_di.make])] in
  let group (s : task.state) (next : task.thread_id) :=
    {| parallel_tasks.self := task.construct 0 ["parallel"%string];
       parallel_tasks.child := fun _ : nat => s;
       parallel_tasks.threads_ := [];
       parallel_tasks.next_thread_id := next |} in
  let w :=
    {| parallel_tasks.self := task.construct 0 ["parallel"%string];
       parallel_tasks.child := fun i =>
         if (i =? 0)%nat then group (task.construct 0 ["first"%string]) 10
         else group (task.construct 0 boost_di.names) 20;
       parallel_tasks.threads_ := [];
       parallel_tasks.next_thread_id := 1 |} in
  let r := parallel_tasks.run boost_di.all_enabled clean.standard
             boost_di.patcher kids w in
  let second := parallel_tasks.child (snd r) 1 in
  fst r = Ret tt /\
  task.interrupted_ (parallel_tasks.child second 0) = true /\
  task.hook_calls (parallel_tasks.child second 0) = [task.DoClean 9] /\
  task.interrupted_ (parallel_tasks.self (snd r)) = false /\
  task.interrupted_ (parallel_tasks.self second) = false /\
  parallel_tasks.interrupt_all_calls kids (snd r) = 1.
Proof. repeat split; reflexivity. Qed.

(** A group inside a group: [interrupt()] on the outer group calls the
    override of the inner one, which sets the flag of its own children and
    not its own. *)
Example nested_group_interrupt :
  let kids := map parallel_tasks.plain [boost_di.make; boost_di.make] in
  let inner := parallel_tasks.nested kids in
  let w :=
    {| parallel_tasks.self := task.construct 0 ["parallel"%string];
       parallel_tasks.child := fun _ =>
         {| parallel_tasks.self := task.construct 0 ["parallel"%string];
            parallel_tasks.child := fun _ => task.construct 0 boost_di.names;
            parallel_tasks.threads_ := [];
            parallel_tasks.next_thread_id := 1 |};
       parallel_tasks.threads_ := [];
       parallel_tasks.next_thread_id := 1 |} in
  let r := parallel_tasks.interrupt [inner] w in
  fst r = Ret tt /\
  task.interrupted_ (parallel_tasks.self (snd r)) = false /\
  task.interrupted_
    (parallel_tasks.self (parallel_tasks.child (snd r) 0)) = false /\
  task.interrupted_
    (parallel_tasks.child (parallel_tasks.child (snd r) 0) 0) = true /\
  task.interrupted_
    (parallel_tasks.child (parallel_tasks.child (snd r) 0) 1) = true.
Proof. repeat split; reflexivity. Qed.

(** [interrupt()] on a group of two boost-di tasks, twice: the flag of
    each child is set, the flag of the group itself is not. *)
Lemma parallel_group_interrupt_leaves_own_flag :
  let kids := map parallel_tasks.plain [boost_di.make; boost_di.make] in
  let w :=
    {| parallel_tasks.self := task.construct 0 ["parallel"%string];
       parallel_tasks.child := fun _ => task.construct 0 boost_di.names;
       parallel_tasks.threads_ := [];
       parallel_tasks.next_thread_id := 1 |} in
  let r1 := parallel_tasks.interrupt kids w in
  let r2 := Eff.bind (parallel_tasks.interrupt kids)
              (fun _ => parallel_tasks.interrupt kids) w in
  fst r1 = Ret tt /\
  task.interrupted_ (parallel_tasks.self (snd r1)) = false /\
  fst r2 = Ret tt /\
  task.interrupted_ (parallel_tasks.self (snd r2)) = false /\
  task.interrupted_ (parallel_tasks.child (snd r2) 0) = true /\
  task.interrupted_ (parallel_tasks.child (snd r2) 1) = true.
Proof. repeat split; reflexivity. Qed.

(* ================================================================== *)
(** * Part II, continued: further properties of the code *)
(* ================================================================== *)

(** ** Name matching, further *)

Section MatchingMore.

Import Matching.
Open Scope string_scope.

Lemma dash_code (x : ascii) :
  In x ["-"%char; "_"%char] -> nat_of_ascii x = 45 \/ nat_of_ascii x = 95.
Proof. intros [<-|[<-|[]]]; [left|right]; reflexivity. Qed.

Lemma char_equiv_refl (x : ascii) : char_equiv x x.
Proof. right. left. reflexivity. Qed.

Lemma char_equiv_sym (x y : ascii) : char_equiv x y -> char_equiv y x.
Proof.
  intros [[Hx Hy]|H]; [left; tauto|]. right.
  apply tolower_eq_iff. symmetry. now apply tolower_eq_iff.
Qed.

(** A dash or an underscore is equal up to case to itself only. *)
Lemma dash_same_case (x y : ascii) :
  In x ["-"%char; "_"%char] -> same_ignoring_case x y -> x = y.
Proof.
  intros Hx [H|[[Hu _]|[Hu Hn]]]; [exact H| |];
    apply dash_code in Hx; unfold Str.is_upper in Hu; lia.
Qed.

Lemma char_equiv_trans (x y z : ascii) :
  char_equiv x y -> char_equiv y z -> char_equiv x z.
Proof.
  intros [[Hx Hy]|Hxy] [[Hy' Hz]|Hyz].
  - left; tauto.
  - left. split; [exact Hx|]. now rewrite <- (dash_same_case Hy Hyz).
  - left. split; [|exact Hz].
    assert (Hyx : same_ignoring_case y x).
    { apply tolower_eq_iff. symmetry. now apply tolower_eq_iff. }
    now rewrite <- (dash_same_case Hy' Hyx).
  - right. apply tolower_eq_iff.
    apply tolower_eq_iff in Hxy, Hyz. congruence.
Qed.

Lemma strings_match_refl (a : string) : strings_match a a = true.
Proof.
  apply strings_match_spec. split; [reflexivity|].
  intros i _. apply char_equiv_refl.
Qed.

Lemma strings_match_sym_true (a b : string) :
  strings_match a b = true -> strings_match b a = true.
Proof.
  rewrite !strings_match_spec. intros [Hlen H]. split; [now symmetry|].
  intros i Hi. apply char_equiv_sym. apply H. now rewrite Hlen.
Qed.

Lemma strings_match_trans (a b c : string) :
  strings_match a b = true -> strings_match b c = true ->
  strings_match a c = true.
Proof.
  rewrite !strings_match_spec. intros [L1 H1] [L2 H2].
  split; [congruence|]. intros i Hi.
  apply (char_equiv_trans (y := Str.at_ b i)); [now apply H1|].
  apply H2. now rewrite <- L1.
Qed.

Lemma strings_match_sym (a b : string) :
  strings_match a b = strings_match b a.
Proof.
  destruct (strings_match a b) eqn:Hab, (strings_match b a) eqn:Hba;
    try reflexivity.
  - apply strings_match_sym_true in Hab. congruence.
  - apply strings_match_sym_true in Hba. congruence.
Qed.

(** X1: [strings_match] is an equivalence on strings: every string
    matches itself, the order of the two arguments does not matter, and
    two strings that match a third match each other. *)
Theorem strings_match_equivalence :
  (forall a, strings_match a a = true) /\
  (forall a b, strings_match a b = strings_match b a) /\
  (forall a b c, strings_match a b = true -> strings_match b c = true ->
                 strings_match a c = true).
Proof.
  split; [exact strings_match_refl|].
  split; [exact strings_match_sym | exact strings_match_trans].
Qed.

(** *** Underscores and dashes *)

Lemma replace_underscore_length (a : string) :
  String.length (Str.replace_all a "_" "-") = String.length a.
Proof.
  induction a as [|c a IH]; simpl; [reflexivity|].
  destruct (Ascii.eqb c "_"); simpl; now rewrite IH.
Qed.

Lemma replace_underscore_at (a : string) :
  forall i, char_equiv (Str.at_ (Str.replace_all a "_" "-") i) (Str.at_ a i).
Proof.
  induction a as [|c a IH]; intros i; simpl.
  - apply char_equiv_refl.
  - destruct (Ascii.eqb_spec c "_") as [->|Hne]; simpl.
    + destruct i as [|i]; [left; simpl; tauto|]. apply IH.
    + destruct i as [|i]; [apply char_equiv_refl|]. apply IH.
Qed.

Lemma replace_underscore_matches (a : string) :
  strings_match (Str.replace_all a "_" "-") a = true.
Proof.
  apply strings_match_spec. split; [apply replace_underscore_length|].
  intros i _. apply replace_underscore_at.
Qed.

Lemma strings_match_congr (x a b : string) :
  strings_match x a = true -> strings_match x b = strings_match a b.
Proof.
  intros Hxa.
  destruct (strings_match a b) eqn:Hab.
  - now apply strings_match_trans with (b := a).
  - destruct (strings_match x b) eqn:Hxb; [|reflexivity].
    apply strings_match_sym_true in Hxa.
    pose proof (strings_match_trans _ _ _ Hxa Hxb). congruence.
Qed.

(** X2: for the exact match an underscore is as good as a dash: writing
    dashes for the underscores of an alias, of the pattern, or of both
    (as the glob path does before it matches) changes no answer of
    [strings_match] or [name_matches_string]. *)
Theorem exact_match_ignores_underscores :
  (forall a b,
     strings_match (Str.replace_all a "_" "-") b = strings_match a b) /\
  (forall a b,
     strings_match a (Str.replace_all b "_" "-") = strings_match a b) /\
  (forall names_ pattern,
     name_matches_string
       (map (fun n => Str.replace_all n "_" "-") names_)
       (Str.replace_all pattern "_" "-") =
     name_matches_string names_ pattern).
Proof.
  assert (L : forall a b,
            strings_match (Str.replace_all a "_" "-") b = strings_match a b).
  { intros a b. apply strings_match_congr, replace_underscore_matches. }
  assert (R : forall a b,
            strings_match a (Str.replace_all b "_" "-") = strings_match a b).
  { intros a b. rewrite strings_match_sym, L. apply strings_match_sym. }
  split; [exact L|]. split; [exact R|].
  intros names_ pattern. induction names_ as [|n rest IH]; simpl;
    [reflexivity|].
  now rewrite L, R, IH.
Qed.

(** *** The glob path when the pattern compiles *)

Section GlobMore.

Variable re : regex_engine.

Lemma glob_loop_no_throw (rx : regex re) (names_ : list string)
  (out : console) :
  (forall n, In n names_ -> regex_match re (Str.replace_all n "_" "-") rx <> None) ->
  glob_loop re rx names_ out =
    (Ret (existsb (fun n => match regex_match re (Str.replace_all n "_" "-") rx with
                            | Some b => b
                            | None => false
                            end) names_), out).
Proof.
  induction names_ as [|n rest IH]; intros Hok; simpl; [reflexivity|].
  unfold Eff.bind, std_call.
  destruct (regex_match re (Str.replace_all n "_" "-") rx) as [[|]|] eqn:Hn; simpl.
  - reflexivity.
  - apply IH. intros m Hm. apply Hok. now right.
  - exfalso. apply (Hok n); [now left|exact Hn].
Qed.

Lemma glob_loop_throws (rx : regex re) (before after : list string)
  (n : string) (out : console) :
  (forall m, In m before -> regex_match re (Str.replace_all m "_" "-") rx = Some false) ->
  regex_match re (Str.replace_all n "_" "-") rx = None ->
  glob_loop re rx (before ++ n :: after) out = (Throw std_exception, out).
Proof.
  intros Hbefore Hn. induction before as [|m rest IH]; simpl.
  - unfold Eff.bind, std_call. now rewrite Hn.
  - unfold Eff.bind, std_call.
    rewrite (Hbefore m) by now left. simpl.
    apply IH. intros k Hk. apply Hbefore. now right.
Qed.

Lemma name_matches_glob_compiled (names_ : list string) (pattern : string)
  (out : console) (rx : regex re) :
  regex_icase re
    (Str.replace_all (Str.replace_all pattern "*" ".*") "_" "-") = Some rx ->
  name_matches_glob re names_ pattern out =
    match glob_loop re rx names_ out with
    | (Ret b, out') => (Ret b, out')
    | (Throw std_exception, out') =>
        (Throw bailed, (out' ++ [bad_glob_message pattern])%list)
    | (Throw e, out') => (Throw e, out')
    end.
Proof.
  intros Hrx.
  unfold name_matches_glob, Eff.try_catch, Eff.bind at 1, std_call at 1.
  rewrite Hrx. cbn [Eff.ret].
  destruct (glob_loop re rx names_ out) as [[b|[| |]] out']; reflexivity.
Qed.

(** X3: when the pattern compiles (after ['*'] became ['.*'] and ['_']
    became ['-']) and the engine answers for every alias,
    [name_matches_glob] returns without writing anything, and it returns
    [true] exactly when the engine matches some alias whose underscores
    were written as dashes. *)
Theorem name_matches_glob_returns
  (names_ : list string) (pattern : string) (out : console)
  (rx : regex re) :
  regex_icase re
    (Str.replace_all (Str.replace_all pattern "*" ".*") "_" "-") = Some rx ->
  (forall n, In n names_ ->
     regex_match re (Str.replace_all n "_" "-") rx <> None) ->
  exists b : bool,
    name_matches_glob re names_ pattern out = (Ret b, out) /\
    (b = true <->
     exists n, In n names_ /\
               regex_match re (Str.replace_all n "_" "-") rx = Some true).
Proof.
  intros Hrx Hok.
  exists (existsb (fun n => match regex_match re (Str.replace_all n "_" "-") rx with
                            | Some b => b
                            | None => false
                            end) names_).
  split.
  - rewrite (name_matches_glob_compiled names_ pattern out Hrx).
    now rewrite (glob_loop_no_throw rx names_ out Hok).
  - rewrite existsb_exists. split.
    + intros (n & Hin & Hn). exists n. split; [exact Hin|].
      destruct (regex_match re _ rx) as [[|]|]; congruence.
    + intros (n & Hin & Hn). exists n. split; [exact Hin|].
      now rewrite Hn.
Qed.

(** X4: an exception of the engine while it matches is as fatal as a
    pattern that does not compile: when the aliases before it did not
    match, [name_matches_glob] writes the "bad glob" diagnostic and throws
    [bailed], whatever aliases follow. *)
Theorem name_matches_glob_match_throws
  (before after : list string) (n pattern : string) (out : console)
  (rx : regex re) :
  regex_icase re
    (Str.replace_all (Str.replace_all pattern "*" ".*") "_" "-") = Some rx ->
  (forall m, In m before ->
     regex_match re (Str.replace_all m "_" "-") rx = Some false) ->
  regex_match re (Str.replace_all n "_" "-") rx = None ->
  name_matches_glob re (before ++ n :: after) pattern out =
    (Throw bailed, (out ++ [bad_glob_message pattern])%list).
Proof.
  intros Hrx Hbefore Hn.
  rewrite (name_matches_glob_compiled _ pattern out Hrx).
  now rewrite (glob_loop_throws rx before after n out Hbefore Hn).
Qed.

(** X5: the glob path does not tell an underscore from a dash in an
    alias: two alias lists that agree once underscores are written as
    dashes get the same answer, the same output and the same exception. *)
Theorem name_matches_glob_ignores_underscores
  (names_ names' : list string) (pattern : string) (out : console) :
  map (fun n => Str.replace_all n "_" "-") names_ =
  map (fun n => Str.replace_all n "_" "-") names' ->
  name_matches_glob re names_ pattern out =
  name_matches_glob re names' pattern out.
Proof.
  intros Hsame.
  assert (Hloop : forall rx o,
            glob_loop re rx names_ o = glob_loop re rx names' o).
  { intros rx. revert names' Hsame.
    induction names_ as [|n rest IH]; intros [|n' rest'] Hsame o;
      simpl in *; try discriminate; [reflexivity|].
    injection Hsame as Hn Hrest. unfold Eff.bind. rewrite Hn.
    destruct (std_call _ o) as [[[|]|e] o']; try reflexivity.
    now apply IH. }
  unfold name_matches_glob, Eff.try_catch, Eff.bind at 1 3.
  destruct (std_call _ out) as [[rx|e] o]; [|reflexivity].
  now rewrite Hloop.
Qed.

End GlobMore.

End MatchingMore.

Lemma name_matches_glob_returns_witness :
  let names_ := ["boost-di"; "boostdi"; "boost_di"]%string in
  let rx := [GlobEngine.TAny; GlobEngine.TChar "-"; GlobEngine.TChar "D";
             GlobEngine.TChar "I"]%char in
  regex_icase GlobEngine.engine
    (Str.replace_all (Str.replace_all "*_DI" "*" ".*") "_" "-") = Some rx /\
  (forall n, In n names_ ->
     regex_match GlobEngine.engine (Str.replace_all n "_" "-") rx <> None) /\
  exists b : bool,
    Matching.name_matches_glob GlobEngine.engine names_ "*_DI" [] =
      (Ret b, []) /\
    (b = true <->
     exists n, In n names_ /\
       regex_match GlobEngine.engine (Str.replace_all n "_" "-") rx =
         Some true).
Proof.
  intros names_ rx.
  assert (H1 : regex_icase GlobEngine.engine
                 (Str.replace_all (Str.replace_all "*_DI" "*" ".*") "_" "-") =
               Some rx) by reflexivity.
  assert (H2 : forall n, In n names_ ->
                 regex_match GlobEngine.engine
                   (Str.replace_all n "_" "-") rx <> None)
    by (intros n _; discriminate).
  split; [exact H1|]. split; [exact H2|].
  exact (@name_matches_glob_returns GlobEngine.engine names_
           "*_DI"%string [] rx H1 H2).
Defined.

Lemma name_matches_glob_match_throws_witness :
  let re := BoundedEngine.engine 7 in
  let rx := [GlobEngine.TChar "b"; GlobEngine.TChar "o"; GlobEngine.TChar "o";
             GlobEngine.TChar "s"; GlobEngine.TChar "t"; GlobEngine.TAny]%char in
  regex_icase re
    (Str.replace_all (Str.replace_all "boost*" "*" ".*") "_" "-") = Some rx /\
  (forall m, In m ["qt"%string] ->
     regex_match re (Str.replace_all m "_" "-") rx = Some false) /\
  regex_match re (Str.replace_all "boost-di" "_" "-") rx = None /\
  Matching.name_matches_glob re
    (["qt"%string] ++ "boost-di"%string :: ["boostdi"%string])%list
    "boost*" [] =
  (Throw bailed, [Matching.bad_glob_message "boost*"]).
Proof.
  intros re rx.
  assert (H1 : regex_icase re
                 (Str.replace_all (Str.replace_all "boost*" "*" ".*") "_" "-") =
               Some rx) by reflexivity.
  assert (H2 : forall m, In m ["qt"%string] ->
                 regex_match re (Str.replace_all m "_" "-") rx = Some false)
    by (intros m [<-|[]]; reflexivity).
  assert (H3 : regex_match re (Str.replace_all "boost-di" "_" "-") rx = None)
    by reflexivity.
  split; [exact H1|]. split; [exact H2|]. split; [exact H3|].
  exact (@name_matches_glob_match_throws re ["qt"%string] ["boostdi"%string]
           "boost-di"%string "boost*"%string [] rx H1 H2 H3).
Defined.

Lemma name_matches_glob_ignores_underscores_witness :
  map (fun n => Str.replace_all n "_" "-") ["boost_di"%string] =
  map (fun n => Str.replace_all n "_" "-") ["boost-di"%string] /\
  Matching.name_matches_glob GlobEngine.engine ["boost_di"%string]
    "boost*" [] =
  Matching.name_matches_glob GlobEngine.engine ["boost-di"%string]
    "boost*" [].
Proof.
  split; [reflexivity|].
  apply (@name_matches_glob_ignores_underscores GlobEngine.engine
           ["boost_di"%string] ["boost-di"%string] "boost*"%string []).
  reflexivity.
Defined.

(** ** Clean flags, further *)

Section CleanMore.

Open Scope Z_scope.

(** On a bitmask enum the flags are [nothing] only when no switch is
    on. *)
Lemma make_clean_flags_nothing (E : clean.enumerators) (g : conf_global.t) :
  clean.bitmask E ->
  (clean.make_clean_flags E g =? clean.nothing E) =
  negb (conf_global.redownload g || conf_global.reextract g ||
        conf_global.reconfigure g || conf_global.rebuild g).
Proof.
  intros HE.
  pose proof (is_set_make_clean_flags g HE) as Hset.
  destruct HE as (H0 & k1 & k2 & k3 & k4 & (P1 & P2 & P3 & P4) & _ &
                  E1 & E2 & E3 & E4).
  assert (Hbit : forall k, 0 <= k -> clean.is_set 0 (2 ^ k) = false).
  { intros k Hk. rewrite is_set_pow2 by assumption. apply Z.bits_0. }
  destruct (clean.make_clean_flags E g =? clean.nothing E) eqn:Heq.
  - apply Z.eqb_eq in Heq. rewrite H0 in Heq. rewrite Heq in Hset.
    pose proof (Hset (conf_global.redownload, clean.redownload E,
                      "redownload"%string)) as S1.
    pose proof (Hset (conf_global.reextract, clean.reextract E,
                      "reextract"%string)) as S2.
    pose proof (Hset (conf_global.reconfigure, clean.reconfigure E,
                      "reconfigure"%string)) as S3.
    pose proof (Hset (conf_global.rebuild, clean.rebuild E,
                      "rebuild"%string)) as S4.
    unfold clean.flag_table in S1, S2, S3, S4. simpl in S1, S2, S3, S4.
    rewrite E1, Hbit in S1 by assumption.
    rewrite E2, Hbit in S2 by assumption.
    rewrite E3, Hbit in S3 by assumption.
    rewrite E4, Hbit in S4 by assumption.
    rewrite <- S1, <- S2, <- S3, <- S4; [reflexivity|tauto|tauto|tauto|tauto].
  - apply Z.eqb_neq in Heq.
    destruct (conf_global.redownload g) eqn:R1,
      (conf_global.reextract g) eqn:R2,
      (conf_global.reconfigure g) eqn:R3,
      (conf_global.rebuild g) eqn:R4; try reflexivity.
    exfalso. apply Heq. unfold clean.make_clean_flags.
    now rewrite R1, R2, R3, R4.
Qed.

(** X6: on a bitmask enum, [make_clean_flags] gives [nothing] exactly
    when the four switches are all off, and [to_string] of its result is
    the empty string in that case only. *)
Theorem make_clean_flags_nothing_iff (E : clean.enumerators)
  (g : conf_global.t) :
  clean.bitmask E ->
  let all_off :=
    negb (conf_global.redownload g || conf_global.reextract g ||
          conf_global.reconfigure g || conf_global.rebuild g) in
  (clean.make_clean_flags E g = clean.nothing E <-> all_off = true) /\
  (clean.to_string E (clean.make_clean_flags E g) = EmptyString <->
   all_off = true).
Proof.
  intros HE all_off. split.
  - rewrite <- Z.eqb_eq. unfold all_off.
    now rewrite (make_clean_flags_nothing g HE).
  - rewrite join_switched.
    rewrite (filter_ext_in _ (fun row => fst (fst row) g))
      by (intros row Hrow; now apply is_set_make_clean_flags).
    unfold all_off, clean.flag_table. simpl.
    destruct (conf_global.redownload g), (conf_global.reextract g),
      (conf_global.reconfigure g), (conf_global.rebuild g); simpl;
      split; intros H; first [reflexivity | discriminate H].
Qed.

Lemma make_clean_flags_nothing_iff_witness :
  clean.bitmask clean.standard /\
  (clean.make_clean_flags clean.standard boost_di.no_redownload =
     clean.nothing clean.standard <-> false = true) /\
  (clean.make_clean_flags clean.standard boost_di.no_redownload = 8).
Proof.
  assert (B : clean.bitmask clean.standard).
  { split; [reflexivity|]. exists 0, 1, 2, 3.
    repeat split; try lia; try reflexivity. }
  split; [exact B|]. split; [|reflexivity].
  exact (proj1 (make_clean_flags_nothing_iff boost_di.no_redownload B)).
Defined.

End CleanMore.

(** ** The task lifecycle, further *)

Section LifecycleMore.

Import task.
Open Scope string_scope.

Variable this_thread : thread_id.
Variable cfg : conf.
Variable E : clean.enumerators.
Variable patcher : string -> bool -> string -> tool.

(** X7: with the clean switch on and the task enabled, [clean_task]
    calls [do_clean] (with the flags of [make_clean_flags], after one
    info line) when one of redownload, reextract, reconfigure, rebuild is
    on, and does nothing at all when the four are off. *)
Theorem clean_task_needs_a_flag (t : class) (s : state) :
  clean.bitmask E ->
  conf_global.clean (global cfg) = true ->
  enabled t cfg = true ->
  let g := global cfg in
  let cf := clean.make_clean_flags E g in
  clean_task this_thread cfg E t s =
    if conf_global.redownload g || conf_global.reextract g ||
       conf_global.reconfigure g || conf_global.rebuild g
    then
      Eff.bind (log this_thread info
                  ("cleaning (" ++ clean.to_string E cf ++ ")"))
        (fun _ => Eff.bind (emit (DoClean cf))
                    (fun _ => do_clean t this_thread cf)) s
    else (Ret tt, s).
Proof.
  intros HE Hclean Hen g cf. unfold clean_task.
  rewrite Hclean, Hen. cbn [negb].
  fold g. fold cf. unfold cf at 1.
  rewrite (make_clean_flags_nothing g HE).
  destruct (conf_global.redownload g || conf_global.reextract g ||
            conf_global.reconfigure g || conf_global.rebuild g);
    reflexivity.
Qed.

Lemma hook_calls_app (s : state) (b : bool) (ts : list tool_ptr)
  (cs : list thread_context) (more : list event) :
  hook_calls {| interrupted_ := b; tools_ := ts; contexts_ := cs;
                events := events s ++ more |} =
  (hook_calls s ++ filter is_hook_call more)%list.
Proof. unfold hook_calls. simpl. apply filter_app. Qed.

(** X8: a task with the hooks of the base class, enabled and not
    interrupted, runs to its end: [run] returns normally, leaves the
    flag, [tools_] and [contexts_] as they were, and goes through the
    phases in the order clean, fetch, build, each only when its switch is
    on (and clean only when the flags are not [nothing]). *)
Theorem base_run_phases_in_order (names : list string) (s : state) :
  task_enabled cfg names = true ->
  interrupted_ s = false ->
  let g := global cfg in
  let cf := clean.make_clean_flags E g in
  let s' := snd (run this_thread cfg E patcher (base names) s) in
  fst (run this_thread cfg E patcher (base names) s) = Ret tt /\
  interrupted_ s' = false /\
  tools_ s' = tools_ s /\
  contexts_ s' = contexts_ s /\
  hook_calls s' =
    (hook_calls s ++
     (if conf_global.clean g && negb (cf =? clean.nothing E)%Z
      then [DoClean cf] else []) ++
     (if conf_global.fetch g then [DoFetch] else []) ++
     (if conf_global.build g then [DoBuildAndInstall] else []))%list.
Proof.
  intros Hen Hflag g cf.
  destruct s as [fl ts cs ev]. simpl in Hflag. subst fl.
  unfold run, clean_task, fetch, build_and_install.
  change (enabled (base names) cfg) with (task_enabled cfg names).
  rewrite Hen. fold g. fold cf. cbn [negb].
  unfold hook_calls.
  destruct (conf_global.clean g), (conf_global.fetch g),
    (conf_global.build g), (cf =? clean.nothing E)%Z;
    cbn; rewrite ?filter_app; cbn; rewrite ?app_nil_r, <- ?app_assoc; cbn;
    repeat split; reflexivity.
Qed.

(** X9: [run] on an enabled task whose flag is already set still goes
    through the clean phase, then throws at the first check: it never
    returns normally, and neither the fetch nor the build phase is
    entered. *)
Theorem run_interrupted_stops_after_clean (t : class) (s : state) :
  enabled t cfg = true ->
  interrupted_ s = true ->
  (forall th c, keeps_flag (do_clean t th c)) ->
  run this_thread cfg E patcher t s =
    Eff.bind (log this_thread info "running task")
      (fun _ => Eff.bind (clean_task this_thread cfg E t)
                  (fun _ => check_interrupted)) s /\
  fst (run this_thread cfg E patcher t s) <> Ret tt.
Proof.
  intros Hen Hflag Hclean.
  assert (Hrun :
    run this_thread cfg E patcher t s =
      Eff.bind (log this_thread info "running task")
        (fun _ => Eff.bind (clean_task this_thread cfg E t)
                    (fun _ => check_interrupted)) s /\
    exists e s', run this_thread cfg E patcher t s = (Throw e, s')).
  { unfold run. rewrite Hen. cbn [negb]. unfold Eff.bind.
    destruct (log this_thread info "running task" s) as [[[]|e] s1] eqn:Hlog;
      [|split; [reflexivity|eauto]].
    assert (H1 : interrupted_ s1 = true).
    { pose proof (keeps_flag_log this_thread info "running task" s Hflag)
        as K. now rewrite Hlog in K. }
    pose proof (keeps_flag_clean_task this_thread cfg E t Hclean s1 H1) as H2.
    destruct (clean_task this_thread cfg E t s1) as [[[]|e] s2];
      [|split; [reflexivity|eauto]].
    simpl in H2. unfold check_interrupted. rewrite H2. cbv beta iota.
    split; [reflexivity|eauto]. }
  destruct Hrun as [Heq (e & s' & Hthrow)].
  split; [exact Heq|]. rewrite Hthrow. discriminate.
Qed.

(** *** Tools and interruption together *)

Lemma erase_appended (x : tool_ptr) (l : list tool_ptr) :
  ~ In x l -> erase x (l ++ [x]) = l.
Proof.
  unfold erase. induction l as [|y l IH]; simpl; intros Hx.
  - now rewrite Nat.eqb_refl.
  - destruct (Nat.eqb_spec y x) as [->|Hne]; [tauto|]. simpl.
    rewrite IH by tauto. reflexivity.
Qed.

(** X10: [interrupt] reaches a tool exactly while [run_tool_impl] has it
    running: called in the state in which the tool's [run] starts, it
    forwards an interrupt to that tool; called once [run_tool_impl] is
    over, it forwards none to it. *)
Theorem interrupt_reaches_tool_only_while_it_runs (t : tool) (s : state) :
  interrupted_ s = false ->
  (exists s1 : state,
     run_tool_impl this_thread t s =
       (match fst (tool_run t (cx this_thread s1) s1) with
        | Ret _ =>
            if interrupted_ (snd (tool_run t (cx this_thread s1) s1))
            then Throw interrupted else Ret tt
        | Throw e => Throw e
        end,
        set_tools
          (erase (tool_addr t)
             (tools_ (snd (tool_run t (cx this_thread s1) s1))))
          (snd (tool_run t (cx this_thread s1) s1))) /\
     In (ToolInterrupt (tool_addr t)) (events (snd (interrupt s1)))) /\
  let s' := snd (run_tool_impl this_thread t s) in
  events (snd (interrupt s')) =
    (events s' ++ map ToolInterrupt (tools_ s'))%list /\
  ~ In (ToolInterrupt (tool_addr t)) (map ToolInterrupt (tools_ s')).
Proof.
  intros Hflag.
  destruct (run_tool_impl_not_interrupted this_thread t s Hflag)
    as (s1 & _ & Htools & _ & _ & Hrun).
  split.
  - exists s1. split; [exact Hrun|].
    rewrite interrupt_eq. simpl. rewrite Htools.
    apply in_or_app. right. rewrite map_app. apply in_or_app. right.
    now left.
  - intros s'. split; [rewrite interrupt_eq; reflexivity|].
    intros Hin. apply in_map_iff in Hin. destruct Hin as (u & Hu & Hin).
    injection Hu as ->. subst s'. rewrite Hrun in Hin. simpl in Hin.
    now apply erase_not_in in Hin.
Qed.

(** X11: [run_tool_impl] leaves [tools_] as it found it, on every exit
    path, when the tool was not already registered and its [run] does not
    touch the list. *)
Theorem run_tool_impl_restores_tools (t : tool) (s : state) :
  (forall c s0, tools_ (snd (tool_run t c s0)) = tools_ s0) ->
  ~ In (tool_addr t) (tools_ s) ->
  tools_ (snd (run_tool_impl this_thread t s)) = tools_ s.
Proof.
  intros Hrun Hnew. destruct (interrupted_ s) eqn:Hflag.
  - rewrite (run_tool_impl_interrupted this_thread t s Hflag). simpl.
    now apply erase_appended.
  - destruct (run_tool_impl_not_interrupted this_thread t s Hflag)
      as (s1 & _ & Htools & _ & _ & Heq).
    rewrite Heq. simpl. rewrite Hrun, Htools. now apply erase_appended.
Qed.

End LifecycleMore.

Lemma clean_task_needs_a_flag_witness :
  let s := task.construct 0 boost_di.names in
  clean.bitmask clean.standard /\
  conf_global.clean (global boost_di.all_enabled) = true /\
  task.enabled boost_di.make boost_di.all_enabled = true /\
  task.hook_calls
    (snd (task.clean_task 0 boost_di.all_enabled clean.standard
            boost_di.make s)) = [task.DoClean 9].
Proof.
  intros s.
  assert (B : clean.bitmask clean.standard).
  { split; [reflexivity|]. exists 0%Z, 1%Z, 2%Z, 3%Z.
    repeat split; try lia; try reflexivity. }
  split; [exact B|]. split; [reflexivity|]. split; [reflexivity|].
  rewrite (clean_task_needs_a_flag 0 boost_di.all_enabled boost_di.make s
             B eq_refl eq_refl).
  reflexivity.
Defined.

Lemma base_run_phases_in_order_witness :
  let s := task.construct 0 ["zlib"%string] in
  task_enabled boost_di.all_enabled ["zlib"%string] = true /\
  task.interrupted_ s = false /\
  task.hook_calls
    (snd (task.run 0 boost_di.all_enabled clean.standard boost_di.patcher
            (task.base ["zlib"%string]) s)) =
  [task.DoClean 9; task.DoFetch; task.DoBuildAndInstall].
Proof.
  intros s. split; [reflexivity|]. split; [reflexivity|].
  exact (proj2 (proj2 (proj2 (proj2
    (base_run_phases_in_order 0 boost_di.all_enabled clean.standard
       boost_di.patcher ["zlib"%string] s eq_refl eq_refl))))).
Defined.

Lemma run_interrupted_stops_after_clean_witness :
  let s := task.set_interrupted true (task.construct 0 boost_di.names) in
  task.enabled boost_di.make boost_di.all_enabled = true /\
  task.interrupted_ s = true /\
  (forall th c, task.keeps_flag (task.do_clean boost_di.make th c)) /\
  fst (task.run 0 boost_di.all_enabled clean.standard boost_di.patcher
         boost_di.make s) <> Ret tt.
Proof.
  intros s.
  assert (K : forall th c, task.keeps_flag (task.do_clean boost_di.make th c))
    by (intros th c s0 H0; exact H0).
  split; [reflexivity|]. split; [reflexivity|]. split; [exact K|].
  exact (proj2 (run_interrupted_stops_after_clean 0 boost_di.all_enabled
                  clean.standard boost_di.patcher boost_di.make s
                  eq_refl eq_refl K)).
Defined.

Lemma interrupt_reaches_tool_only_while_it_runs_witness :
  let s := task.construct 0 boost_di.names in
  task.interrupted_ s = false /\
  ~ In (task.ToolInterrupt 1)
       (map task.ToolInterrupt
          (task.tools_ (snd (task.run_tool_impl 0 boost_di.git_clone s)))).
Proof.
  intros s. split; [reflexivity|].
  exact (proj2 (proj2
    (interrupt_reaches_tool_only_while_it_runs 0 boost_di.git_clone s
       eq_refl))).
Defined.

Lemma run_tool_impl_restores_tools_witness :
  let s := task.set_tools [2; 3] (task.construct 0 boost_di.names) in
  (forall c s0,
     task.tools_ (snd (task.tool_run boost_di.git_clone c s0)) =
     task.tools_ s0) /\
  ~ In (task.tool_addr boost_di.git_clone) (task.tools_ s) /\
  task.tools_ (snd (task.run_tool_impl 0 boost_di.git_clone s)) = [2; 3].
Proof.
  intros s.
  assert (H1 : forall c s0,
            task.tools_ (snd (task.tool_run boost_di.git_clone c s0)) =
            task.tools_ s0) by reflexivity.
  assert (H2 : ~ In (task.tool_addr boost_di.git_clone) (task.tools_ s)).
  { simpl. intros [H|[H|[]]]; discriminate. }
  split; [exact H1|]. split; [exact H2|].
  exact (run_tool_impl_restores_tools 0 boost_di.git_clone s H1 H2).
Defined.

(** ** The context registry, further *)

Section RegistryMore.

Import task.
Open Scope string_scope.

Lemma find_context_app (th : thread_id) (l l' : list thread_context) :
  find (fun td => (tid td =? th)%nat) (l ++ l') =
  match find (fun td => (tid td =? th)%nat) l with
  | Some td => Some td
  | None => find (fun td => (tid td =? th)%nat) l'
  end.
Proof.
  induction l as [|td l IH]; simpl; [reflexivity|].
  destruct (tid td =? th)%nat; [reflexivity|exact IH].
Qed.

Lemma find_context_none (th : thread_id) (l : list thread_context) :
  find (fun td => (tid td =? th)%nat) l = None <-> ~ In th (map tid l).
Proof.
  induction l as [|td l IH]; simpl; [tauto|].
  destruct (Nat.eqb_spec (tid td) th) as [Heq|Hne].
  - split; [discriminate|]. intros H. exfalso. apply H. now left.
  - rewrite IH. tauto.
Qed.

Lemma erase_first_unbound (th : thread_id) (l : list thread_context) :
  ~ In th (map tid l) -> erase_first th l = l.
Proof.
  induction l as [|td l IH]; simpl; intros H; [reflexivity|].
  destruct (Nat.eqb_spec (tid td) th) as [Heq|Hne]; [tauto|].
  rewrite IH by tauto. reflexivity.
Qed.

Lemma erase_first_app_bound (th : thread_id) (l r : list thread_context) :
  In th (map tid l) -> erase_first th (l ++ r) = (erase_first th l ++ r)%list.
Proof.
  induction l as [|td l IH]; simpl; intros H; [tauto|].
  destruct (Nat.eqb_spec (tid td) th) as [Heq|Hne]; [reflexivity|].
  rewrite IH by (destruct H; [contradiction|assumption]). reflexivity.
Qed.

Lemma find_erase_other (th th' : thread_id) (l : list thread_context) :
  th <> th' ->
  find (fun td => (tid td =? th)%nat) (erase_first th' l) =
  find (fun td => (tid td =? th)%nat) l.
Proof.
  intros Hne. induction l as [|td l IH]; simpl; [reflexivity|].
  destruct (Nat.eqb_spec (tid td) th') as [Heq|Hne'].
  - destruct (Nat.eqb_spec (tid td) th) as [Heq'|_]; [congruence|reflexivity].
  - simpl. destruct (tid td =? th)%nat; [reflexivity|exact IH].
Qed.

(** X12: adding a context never changes what [cx()] answers to a thread
    that has one already, be it the adding thread itself: the scan stops
    at the first record.  A thread without a record gets the name it
    adds, where it got "?" before; a record added by another thread
    changes nothing for this one. *)
Theorem cx_after_add_context (th th' : thread_id) (n : string) (s : state) :
  (In th (map tid (contexts_ s)) ->
   cx th (snd (add_context_for_this_thread th' n s)) = cx th s) /\
  (~ In th (map tid (contexts_ s)) ->
   cx th s = "?" /\ cx th (snd (add_context_for_this_thread th n s)) = n) /\
  (th <> th' ->
   cx th (snd (add_context_for_this_thread th' n s)) = cx th s).
Proof.
  unfold cx, add_context_for_this_thread, Eff.modify. simpl.
  split; [|split].
  - intros Hb. rewrite find_context_app.
    destruct (find _ (contexts_ s)) as [td|] eqn:Hf; [reflexivity|].
    apply find_context_none in Hf. contradiction.
  - intros Hu. apply find_context_none in Hu.
    rewrite find_context_app, Hu. simpl. now rewrite Nat.eqb_refl.
  - intros Hne. rewrite find_context_app.
    destruct (find _ (contexts_ s)) as [td|]; [reflexivity|]. simpl.
    destruct (Nat.eqb_spec th' th) as [Heq|_]; [congruence|reflexivity].
Qed.

(** X13: removing the context of a thread that has none changes nothing;
    removing one's own never changes what [cx()] answers to another
    thread; and when the registry holds one record per thread, the thread
    that removed its record gets "?" afterwards. *)
Theorem remove_context_only_own (th th' : thread_id) (s : state) :
  (~ In th (map tid (contexts_ s)) ->
   remove_context_for_this_thread th s = s) /\
  (th <> th' -> cx th (remove_context_for_this_thread th' s) = cx th s) /\
  (NoDup (map tid (contexts_ s)) ->
   cx th (remove_context_for_this_thread th s) = "?").
Proof.
  unfold cx, remove_context_for_this_thread, set_contexts. simpl.
  split; [|split].
  - intros Hu. rewrite (erase_first_unbound _ _ Hu). destruct s; reflexivity.
  - intros Hne. now rewrite find_erase_other.
  - intros Hnd. destruct (erase_first_tids th _ Hnd) as [_ Hin].
    assert (Hu : ~ In th (map tid (erase_first th (contexts_ s)))).
    { rewrite Hin. tauto. }
    apply find_context_none in Hu. now rewrite Hu.
Qed.

(** X14: for a list of names that is not empty, the constructor leaves a
    registry with the one record of the creating thread, named after the
    task ([names_[0]]): [cx()] answers the task's name to the creator and
    "?" to every other thread.  The task is registered with the task
    manager unless its name is "parallel". *)
Theorem construct_registers_creator (th : thread_id) (names : list string) :
  names <> [] ->
  let s := construct th names in
  cx th s = nth 0 names EmptyString /\
  (forall th', th' <> th -> cx th' s = "?") /\
  NoDup (map tid (contexts_ s)) /\
  interrupted_ s = false /\
  tools_ s = [] /\
  (events s = [] <-> nth 0 names EmptyString = "parallel") /\
  (nth 0 names EmptyString <> "parallel" ->
   events s = [RegisterTask (nth 0 names EmptyString)]).
Proof.
  intros _. unfold cx, construct. simpl. rewrite Nat.eqb_refl.
  split; [reflexivity|]. split.
  { intros th' Hne. destruct (Nat.eqb_spec th th'); [congruence|reflexivity]. }
  split; [repeat constructor; simpl; tauto|].
  split; [reflexivity|]. split; [reflexivity|].
  destruct (String.eqb_spec (nth 0 names EmptyString) "parallel") as [He|Hne].
  - split; [tauto|contradiction].
  - split; [split; [discriminate|contradiction]|reflexivity].
Qed.

(** X15: [bailed] and [interrupted] never leave [running_from_thread].
    It returns normally when the callable returned or threw one of the
    two; only another exception goes through.  After a return,
    [interrupted] or another exception, everything is as the callable
    left it, but for the record of the thread, which is removed.  After
    [bailed] it has, on top of that, logged the error to the global
    context and called [interrupt_all]: when the task is registered (its
    name is not "parallel") its flag is set and each of its [tools_] is
    interrupted, and the other tasks are reached last; [tools_] and the
    registry are not touched by this. *)
Theorem running_from_thread_swallows_signals {W : Type} (V : view W)
  (th : thread_id) (t : class) (n : string) (f : Eff.M W unit) (w : W) :
  let w1 := snd (lift V (add_context_for_this_thread th n) w) in
  let r := running_from_thread th t V n f w in
  let w2 := over V (remove_context_for_this_thread th) (snd (f w1)) in
  fst r = match fst (f w1) with
          | Throw std_exception => Throw std_exception
          | _ => Ret tt
          end /\
  match fst (f w1) with
  | Throw bailed =>
      let registered := negb (String.eqb (name t) "parallel") in
      let s3 :=
        {| interrupted_ := registered || interrupted_ (get V w2);
           tools_ := tools_ (get V w2);
           contexts_ := contexts_ (get V w2);
           events :=
             (events (get V w2) ++
              [Log gcx error (name t ++ " bailed out, interrupting all tasks");
               InterruptAll] ++
              (if registered then map ToolInterrupt (tools_ (get V w2))
               else []))%list |} in
      snd r = others V (put V s3 w2) /\ get V (snd r) = s3
  | _ => snd r = w2
  end.
Proof.
  intros w1 r w2. subst r.
  rewrite running_from_thread_eq. fold w1. fold w2.
  destruct (fst (f w1)) as [[]|[| |]]; cbn [fst snd];
    try (split; reflexivity).
  rewrite bailed_handler_eq. cbn [snd].
  assert (Hs : forall s3 s3', s3 = s3' ->
            others V (put V s3 w2) = others V (put V s3' w2) /\
            get V (others V (put V s3 w2)) = s3').
  { intros s3 s3' <-. split; [reflexivity|].
    now rewrite others_get, get_put. }
  split; [reflexivity|]. apply Hs.
  destruct (negb _); cbn [orb]; f_equal;
    rewrite <- ?app_assoc; cbn [app]; rewrite ?app_nil_r; reflexivity.
Qed.

(** X16: inside [running_from_thread] a thread that had no record logs
    under [thread_name].  A thread that had one already (the creator of
    the task, say) keeps logging under its old name, and on the way out
    it is the old record that is removed: the new one stays behind. *)
Theorem running_from_thread_context_name {W : Type} (V : view W)
  (th : thread_id) (t : class) (n : string) (f : Eff.M W unit) (w : W) :
  let w1 := snd (lift V (add_context_for_this_thread th n) w) in
  (~ In th (map tid (contexts_ (get V w))) -> cx th (get V w1) = n) /\
  (In th (map tid (contexts_ (get V w))) ->
   cx th (get V w1) = cx th (get V w) /\
   (contexts_ (get V (snd (f w1))) = contexts_ (get V w1) ->
    contexts_ (get V (snd (running_from_thread th t V n f w))) =
    (erase_first th (contexts_ (get V w)) ++
       [ {| tid := th; cx_name := n |} ])%list)).
Proof.
  intros w1.
  destruct (running_from_thread_contexts V th t n f w) as [Hadd Hrem].
  fold w1 in Hadd, Hrem.
  split.
  - intros Hu. unfold cx. rewrite Hadd, find_context_app.
    apply find_context_none in Hu. rewrite Hu. simpl.
    now rewrite Nat.eqb_refl.
  - intros Hb. split.
    + unfold cx. rewrite Hadd, find_context_app.
      destruct (find _ (contexts_ (get V w))) as [td|] eqn:Hf; [reflexivity|].
      apply find_context_none in Hf. contradiction.
    + intros Hsame. rewrite Hrem, Hsame, Hadd.
      now apply erase_first_app_bound.
Qed.

End RegistryMore.

Lemma construct_registers_creator_witness :
  boost_di.names <> [] /\
  task.cx 0 (task.construct 0 boost_di.names) = "boost-di"%string /\
  task.cx 1 (task.construct 0 boost_di.names) = "?"%string /\
  task.events (task.construct 0 boost_di.names) =
    [task.RegisterTask "boost-di"].
Proof.
  assert (H : boost_di.names <> []) by discriminate.
  split; [exact H|].
  destruct (@construct_registers_creator 0 boost_di.names H)
    as (Hcx & Hother & _ & _ & _ & _ & Hev).
  split; [exact Hcx|]. split; [apply Hother; discriminate|].
  apply Hev. discriminate.
Defined.

(** ** The parallel group, further *)

Section ParallelMore.

Import parallel_tasks.

Variable C : Type.
Variable cfg : conf.
Variable E : clean.enumerators.
Variable patcher : string -> bool -> string -> task.tool.
Variable children_ : list (vtable C).

Lemma interrupt_from_spec (ts : list (vtable C)) :
  (forall t s, In t ts -> fst (v_interrupt t s) = Ret tt) ->
  forall (i : nat) (w : world C),
  exists w' : world C,
    interrupt_from i ts w = (Ret tt, w') /\
    self w' = self w /\
    threads_ w' = threads_ w /\
    forall j, child w' j =
              if (i <=? j)%nat then
                match nth_error ts (j - i) with
                | Some t => snd (v_interrupt t (child w j))
                | None => child w j
                end
              else child w j.
Proof.
  induction ts as [|t rest IH]; intros Hret i w.
  - exists w. split; [reflexivity|]. split; [reflexivity|].
    split; [reflexivity|]. intros j.
    destruct (i <=? j)%nat; [|reflexivity].
    destruct (j - i); reflexivity.
  - simpl. unfold Eff.bind at 1. unfold on_child at 1.
    pose proof (Hret t (child w i) (or_introl eq_refl)) as Ht.
    destruct (v_interrupt t (child w i)) as [[[]|e] si] eqn:Hi;
      [|discriminate Ht].
    match goal with
    | |- context [interrupt_from (S i) rest ?w1] =>
        destruct (IH (fun t' s' H => Hret t' s' (or_intror H)) (S i) w1)
          as (w' & Hrun & Hself & Hth & Hchild)
    end.
    exists w'. split; [exact Hrun|]. split; [exact Hself|].
    split; [exact Hth|]. intros j. rewrite Hchild. cbn [child].
    destruct (Nat.eqb_spec j i) as [->|Hne].
    + replace (S i <=? i)%nat with false
        by (symmetry; apply Nat.leb_gt; lia).
      rewrite Nat.leb_refl, Nat.sub_diag. cbn [nth_error].
      now rewrite Hi.
    + destruct (Nat.leb_spec (S i) j) as [Hle|Hgt].
      * replace (i <=? j)%nat with true
          by (symmetry; apply Nat.leb_le; lia).
        replace (j - i) with (S (j - S i)) by lia. reflexivity.
      * replace (i <=? j)%nat with false
          by (symmetry; apply Nat.leb_gt; lia).
        reflexivity.
Qed.

(** X17: [parallel_tasks::interrupt] leaves the members of the group
    itself, its flag among them, as they were.  It calls [interrupt()] of
    each child, in the order of [children_], whatever the child's class
    makes of it; when these calls return normally, so does the group's,
    and every child is left as its own [interrupt()] leaves it. *)
Theorem parallel_interrupt_reaches_children (w : world C) :
  self (snd (interrupt children_ w)) = self w /\
  ((forall t s, In t children_ -> fst (v_interrupt t s) = Ret tt) ->
   exists w' : world C,
     interrupt children_ w = (Ret tt, w') /\
     self w' = self w /\
     threads_ w' = threads_ w /\
     (forall j t, nth_error children_ j = Some t ->
        child w' j = snd (v_interrupt t (child w j))) /\
     (forall j, List.length children_ <= j -> child w' j = child w j)).
Proof.
  split; [apply parallel_interrupt_leaves_group|].
  intros Hret.
  destruct (interrupt_from_spec children_ Hret 0 w)
    as (w' & Hrun & Hself & Hth & Hchild).
  exists w'. split; [exact Hrun|]. split; [exact Hself|].
  split; [exact Hth|]. split.
  - intros j t Hj. rewrite Hchild. cbn [Nat.leb].
    now rewrite Nat.sub_0_r, Hj.
  - intros j Hj. rewrite Hchild. cbn [Nat.leb].
    rewrite Nat.sub_0_r.
    destruct (nth_error children_ j) eqn:Hn; [|reflexivity].
    assert (j < List.length children_)
      by (apply nth_error_Some; congruence).
    lia.
Qed.


End ParallelMore.


(** ** The git tool, further *)

Section GitMore.

Import git.

Variable git_binary : process -> list path -> bool * list path.
Variable g : conf_global.t.
Variable self : git.t.

(** [do_run] with its parameters present: the optional deletion, then
    the [switch]. *)
Lemma do_run_dispatch (w : world) :
  url_ self <> EmptyString -> where_ self <> [] ->
  do_run git_binary g self w =
    match op_ self with
    | clone => Eff.bind (do_clone git_binary self) (fun _ => Eff.ret tt)
    | pull => do_pull git_binary self
    | clone_or_pull2 => do_clone_or_pull git_binary self
    | other_op value =>
        bail_out ("git unknown op " ++
                  NilEmpty.string_of_uint (Nat.to_uint value))
    end
      (if conf_global.redownload g || conf_global.reextract g
       then snd (delete_directory (where_ self)
                   (snd (write_log task.trace
                           "deleting directory controlled by git" w)))
       else w).
Proof.
  intros Hu Hw. unfold do_run.
  rewrite (parameters_present self Hu Hw).
  unfold Eff.bind at 1. unfold Eff.ret at 1.
  destruct (conf_global.redownload g || conf_global.reextract g);
    reflexivity.
Qed.

Lemma do_clone_executes (w : world) :
  executed (snd (do_clone git_binary self w)) =
    (executed w ++
       (if exists_ (files w) (where_ self ++ [".git"])%list
        then [] else [clone_process self]))%list /\
  (exists_ (files w) (where_ self ++ [".git"])%list = true ->
   fst (do_clone git_binary self w) = Ret false /\
   files (snd (do_clone git_binary self w)) = files w).
Proof.
  unfold do_clone, execute_and_join, write_log, Eff.bind, Eff.gets,
    Eff.modify, Eff.ret. cbn.
  destruct (exists_ (files w) (where_ self ++ [".git"])%list); cbn.
  - rewrite app_nil_r. split; [reflexivity|]. intros _. split; reflexivity.
  - split; [|discriminate].
    destruct (git_binary (clone_process self) (files w)) as [[] fs'];
      reflexivity.
Qed.

(** X19: in clone mode a run never pulls.  It executes the clone, unless
    the destination holds a [.git] and has not just been deleted for
    redownload or reextract: then it executes nothing at all and returns
    normally, leaving the files alone. *)
Theorem clone_mode_never_pulls (w : world) :
  op_ self = clone ->
  url_ self <> EmptyString ->
  where_ self <> [] ->
  let marker := exists_ (files w) (where_ self ++ [".git"])%list in
  let wiped := conf_global.redownload g || conf_global.reextract g in
  let w' := snd (do_run git_binary g self w) in
  executed w' =
    (executed w ++
       (if negb wiped && marker then [] else [clone_process self]))%list /\
  pulls w' = pulls w /\
  (negb wiped && marker = true ->
   fst (do_run git_binary g self w) = Ret tt /\ files w' = files w).
Proof.
  intros Hop Hu Hw marker wiped w'.
  assert (Hrun : do_run git_binary g self w =
            Eff.bind (do_clone git_binary self) (fun _ => Eff.ret tt)
              (if wiped
               then snd (delete_directory (where_ self)
                           (snd (write_log task.trace
                                   "deleting directory controlled by git" w)))
               else w)).
  { rewrite (do_run_dispatch w Hu Hw), Hop. reflexivity. }
  assert (Hexec : executed w' =
            (executed w ++
               (if negb wiped && marker then [] else [clone_process self]))%list).
  { subst w'. rewrite Hrun. unfold Eff.bind.
    destruct wiped; cbv iota.
    - destruct (executed_after_wipe self w) as [He Hm]. cbv zeta in He, Hm.
      match goal with
      | |- context [do_clone git_binary self ?w0] =>
          destruct (do_clone_executes w0) as [Hx _];
          destruct (do_clone git_binary self w0) as [[b|e] w1]
      end; cbn [fst snd Eff.ret] in Hx |- *; rewrite Hx, He, Hm; reflexivity.
    - destruct (do_clone_executes w) as [Hx _].
      destruct (do_clone git_binary self w) as [[b|e] w1];
        cbn [fst snd Eff.ret] in Hx |- *; rewrite Hx; reflexivity. }
  split; [exact Hexec|]. split.
  - unfold pulls. rewrite Hexec, filter_app, length_app.
    destruct (negb wiped && marker); simpl; lia.
  - intros Hkeep. apply andb_true_iff in Hkeep. destruct Hkeep as [Hnw Hm].
    subst w'. rewrite Hrun.
    destruct wiped; [discriminate|]. cbv iota.
    destruct (do_clone_executes w) as [_ Hx].
    destruct (Hx Hm) as [Hret Hfiles]. unfold Eff.bind.
    destruct (do_clone git_binary self w) as [[b|e] w1];
      simpl in *; [split; [reflexivity|exact Hfiles]|discriminate].
Qed.

(** X20: in pull mode a run executes the pull and nothing else, whether
    or not the destination holds a [.git], and also when it has just
    deleted the destination for redownload or reextract. *)
Theorem pull_mode_always_pulls (w : world) :
  op_ self = pull ->
  url_ self <> EmptyString ->
  where_ self <> [] ->
  let w' := snd (do_run git_binary g self w) in
  executed w' = (executed w ++ [pull_process self])%list /\
  clones w' = clones w /\
  pulls w' = S (pulls w).
Proof.
  intros Hop Hu Hw w'.
  assert (Hexec : executed w' = (executed w ++ [pull_process self])%list).
  { subst w'. rewrite (do_run_dispatch w Hu Hw), Hop.
    unfold do_pull, execute_and_join.
    destruct (conf_global.redownload g || conf_global.reextract g); cbn;
      match goal with
      | |- context [git_binary ?p ?fs] =>
          destruct (git_binary p fs) as [[] fs']
      end; reflexivity. }
  split; [exact Hexec|].
  unfold clones, pulls. rewrite Hexec, !filter_app, !length_app. simpl.
  split; lia.
Qed.

(** X21: a mode that is none of clone, pull and clone-or-pull makes the
    run bail out with "git unknown op " followed by the value of the mode
    in decimal, without executing any process; but the destination has
    been deleted before, when redownload or reextract is set. *)
Theorem unknown_op_bails_after_deleting (w : world) (value : nat) :
  op_ self = other_op value ->
  url_ self <> EmptyString ->
  where_ self <> [] ->
  let wiped := conf_global.redownload g || conf_global.reextract g in
  do_run git_binary g self w =
    (Throw bailed,
     {| files := if wiped
                 then filter (fun q => negb (is_prefix (where_ self) q))
                        (files w)
                 else files w;
        executed := executed w;
        log := (log w ++
                (if wiped
                 then [(task.trace, "deleting directory controlled by git")]
                 else []) ++
                [(task.error,
                  ("git unknown op " ++
                   NilEmpty.string_of_uint (Nat.to_uint value))%string)])%list |}).
Proof.
  intros Hop Hu Hw wiped.
  rewrite (do_run_dispatch w Hu Hw), Hop. fold wiped.
  destruct wiped; cbn; rewrite <- ?app_assoc; reflexivity.
Qed.



(** X23: with a git whose successful clone leaves a [.git] in the
    destination, and neither redownload nor reextract set, two runs in
    clone-or-pull mode on a destination without [.git] execute the clone
    and then the pull. *)
Theorem clone_then_pull (w : world) :
  op_ self = clone_or_pull2 ->
  url_ self <> EmptyString ->
  where_ self <> [] ->
  conf_global.redownload g || conf_global.reextract g = false ->
  (forall fs,
     fst (git_binary (clone_process self) fs) = true ->
     exists_ (snd (git_binary (clone_process self) fs))
       (where_ self ++ [".git"])%list = true) ->
  exists_ (files w) (where_ self ++ [".git"])%list = false ->
  fst (git_binary (clone_process self) (files w)) = true ->
  executed
    (snd (Eff.bind (do_run git_binary g self)
            (fun _ => do_run git_binary g self) w)) =
  (executed w ++ [clone_process self; pull_process self])%list.
Proof.
  intros Hop Hu Hw Hnowipe Hgit Habsent Hok.
  assert (Hrun1 : forall w0, do_run git_binary g self w0 =
                             do_clone_or_pull git_binary self w0).
  { intros w0. rewrite (do_run_dispatch w0 Hu Hw), Hop, Hnowipe.
    reflexivity. }
  unfold Eff.bind. rewrite !Hrun1.
  pose proof (do_clone_or_pull_executes git_binary self w) as Hfirst.
  rewrite Habsent in Hfirst.
  assert (Hstate :
    fst (do_clone_or_pull git_binary self w) = Ret tt /\
    files (snd (do_clone_or_pull git_binary self w)) =
      snd (git_binary (clone_process self) (files w))).
  { unfold do_clone_or_pull, do_clone, do_pull, execute_and_join, write_log,
      Eff.bind, Eff.gets, Eff.modify, Eff.ret. cbn.
    rewrite Habsent. cbn.
    destruct (git_binary (clone_process self) (files w)) as [[] fs'];
      simpl in Hok; [split; reflexivity | discriminate]. }
  destruct Hstate as [Hret Hfiles].
  destruct (do_clone_or_pull git_binary self w) as [[[]|e] w1];
    simpl in *; [|discriminate].
  rewrite Hrun1, do_clone_or_pull_executes, Hfirst, Hfiles.
  rewrite (Hgit _ Hok), <- app_assoc. reflexivity.
Qed.

End GitMore.

Lemma clone_mode_never_pulls_witness :
  let self :=
    {| git.op_ := git.clone;
       git.url_ := "https://example/repo.git";
       git.branch_ := "main";
       git.where_ := ["build"; "di"]%string |} in
  let w :=
    {| git.files := [["build"; "di"]; ["build"; "di"; ".git"]]%string;
       git.executed := []; git.log := [] |} in
  git.op_ self = git.clone /\
  git.url_ self <> EmptyString /\
  git.where_ self <> [] /\
  git.executed
    (snd (git.do_run git.fake_git boost_di.no_redownload self w)) = [] /\
  git.pulls
    (snd (git.do_run git.fake_git boost_di.redownload_and_rebuild self w)) = 0.
Proof.
  intros self w.
  assert (Hop : git.op_ self = git.clone) by reflexivity.
  assert (Hu : git.url_ self <> EmptyString) by discriminate.
  assert (Hw : git.where_ self <> []) by discriminate.
  split; [exact Hop|]. split; [exact Hu|]. split; [exact Hw|]. split.
  - exact (proj1 (clone_mode_never_pulls git.fake_git boost_di.no_redownload
                    self w Hop Hu Hw)).
  - exact (proj1 (proj2 (clone_mode_never_pulls git.fake_git
                           boost_di.redownload_and_rebuild self w Hop Hu Hw))).
Defined.

Lemma pull_mode_always_pulls_witness :
  let self :=
    {| git.op_ := git.pull;
       git.url_ := "https://example/repo.git";
       git.branch_ := "main";
       git.where_ := ["build"; "di"]%string |} in
  let w := {| git.files := []; git.executed := []; git.log := [] |} in
  git.op_ self = git.pull /\
  git.url_ self <> EmptyString /\
  git.where_ self <> [] /\
  git.executed
    (snd (git.do_run git.fake_git boost_di.no_redownload self w)) =
  [git.pull_process self].
Proof.
  intros self w.
  assert (Hop : git.op_ self = git.pull) by reflexivity.
  assert (Hu : git.url_ self <> EmptyString) by discriminate.
  assert (Hw : git.where_ self <> []) by discriminate.
  split; [exact Hop|]. split; [exact Hu|]. split; [exact Hw|].
  exact (proj1 (pull_mode_always_pulls git.fake_git boost_di.no_redownload
                  self w Hop Hu Hw)).
Defined.

Lemma unknown_op_bails_after_deleting_witness :
  let self :=
    {| git.op_ := git.other_op 7;
       git.url_ := "https://example/repo.git";
       git.branch_ := "main";
       git.where_ := ["build"; "di"]%string |} in
  let w :=
    {| git.files := [["build"]; ["build"; "di"]; ["build"; "di"; ".git"]]%string;
       git.executed := []; git.log := [] |} in
  git.op_ self = git.other_op 7 /\
  git.url_ self <> EmptyString /\
  git.where_ self <> [] /\
  fst (git.do_run git.fake_git boost_di.redownload_and_rebuild self w) =
    Throw bailed /\
  git.files
    (snd (git.do_run git.fake_git boost_di.redownload_and_rebuild self w)) =
  [["build"%string]] /\
  git.log
    (snd (git.do_run git.fake_git boost_di.redownload_and_rebuild self w)) =
  [(task.trace, "deleting directory controlled by git"%string);
   (task.error, "git unknown op 7"%string)].
Proof.
  intros self w.
  assert (Hop : git.op_ self = git.other_op 7) by reflexivity.
  assert (Hu : git.url_ self <> EmptyString) by discriminate.
  assert (Hw : git.where_ self <> []) by discriminate.
  split; [exact Hop|]. split; [exact Hu|]. split; [exact Hw|].
  rewrite (unknown_op_bails_after_deleting git.fake_git
             boost_di.redownload_and_rebuild self w Hop Hu Hw).
  repeat split; reflexivity.
Defined.


Lemma clone_then_pull_witness :
  let self :=
    {| git.op_ := git.clone_or_pull2;
       git.url_ := "https://example/repo.git";
       git.branch_ := "main";
       git.where_ := ["build"; "di"]%string |} in
  let w :=
    {| git.files := [["build"%string]]; git.executed := []; git.log := [] |} in
  (forall fs,
     fst (git.fake_git (git.clone_process self) fs) = true ->
     git.exists_ (snd (git.fake_git (git.clone_process self) fs))
       (git.where_ self ++ [".git"%string]) = true) /\
  git.exists_ (git.files w) (git.where_ self ++ [".git"%string]) = false /\
  git.executed
    (snd (Eff.bind (git.do_run git.fake_git boost_di.no_redownload self)
            (fun _ => git.do_run git.fake_git boost_di.no_redownload self)
            w)) =
  [git.clone_process self; git.pull_process self].
Proof.
  intros self w.
  assert (Hgit : forall fs,
            fst (git.fake_git (git.clone_process self) fs) = true ->
            git.exists_ (snd (git.fake_git (git.clone_process self) fs))
              (git.where_ self ++ [".git"%string]) = true)
    by (intros fs _; reflexivity).
  split; [exact Hgit|]. split; [reflexivity|].
  apply (clone_then_pull git.fake_git boost_di.no_redownload self w).
  - reflexivity.
  - discriminate.
  - discriminate.
  - reflexivity.
  - exact Hgit.
  - reflexivity.
  - reflexivity.
Defined.

(** ** What leaves [name_matches], and tools after an interrupt *)

Section OutcomesMore.

Import Matching.
Open Scope string_scope.

Variable re : regex_engine.

Lemma glob_loop_outcome (rx : regex re) (names_ : list string)
  (out : console) :
  (exists b, glob_loop re rx names_ out = (Ret b, out)) \/
  glob_loop re rx names_ out = (Throw std_exception, out).
Proof.
  induction names_ as [|n rest IH]; simpl.
  - left. now exists false.
  - unfold Eff.bind, std_call.
    destruct (regex_match re (Str.replace_all n "_" "-") rx) as [[|]|]; simpl.
    + left. now exists true.
    + exact IH.
    + now right.
Qed.

(** X24: whatever the engine, the aliases and the pattern, [name_matches]
    ends in one of two ways: it returns and has written nothing, or it
    throws [bailed] and has written the "bad glob" diagnostic of the
    pattern, once.  No other exception leaves it, and a pattern without
    ['*'] always takes the first way. *)
Theorem name_matches_returns_or_bails
  (names_ : list string) (pattern : string) (out : console) :
  ((exists b, name_matches re names_ pattern out = (Ret b, out)) \/
   (Str.contains "*" pattern = true /\
    name_matches re names_ pattern out =
      (Throw bailed, (out ++ [bad_glob_message pattern])%list))).
Proof.
  unfold name_matches.
  destruct (Str.contains "*" pattern) eqn:Hstar.
  - destruct (regex_icase re
                (Str.replace_all (Str.replace_all pattern "*" ".*") "_" "-"))
      as [rx|] eqn:Hrx.
    + rewrite (name_matches_glob_compiled re names_ pattern out Hrx).
      destruct (glob_loop_outcome rx names_ out) as [[b Hb]|Ht].
      * left. exists b. now rewrite Hb.
      * right. split; [reflexivity|]. now rewrite Ht.
    + right. split; [reflexivity|].
      unfold name_matches_glob, Eff.try_catch, Eff.bind.
      rewrite Hrx. reflexivity.
  - left. eexists. reflexivity.
Qed.

End OutcomesMore.

Section AfterInterrupt.

Import task.

Variable this_thread : thread_id.

(** X25: once [interrupt] has been called, the task starts no tool any
    more: [run_tool_impl] after [interrupt] throws [interrupted] without
    calling the [run] of the tool, whatever the tool is, and leaves it
    out of [tools_]. *)
Theorem no_tool_runs_after_interrupt (t : tool) (s : state) :
  let r := Eff.bind interrupt (fun _ => run_tool_impl this_thread t) s in
  fst r = Throw interrupted /\
  (forall a, tool_runs a (snd r) = tool_runs a s) /\
  interrupted_ (snd r) = true /\
  ~ In (tool_addr t) (tools_ (snd r)).
Proof.
  intros r. subst r. unfold Eff.bind. rewrite interrupt_eq.
  rewrite run_tool_impl_interrupted by reflexivity.
  cbn [fst snd interrupted_ tools_ contexts_ events].
  split; [reflexivity|]. split; [|split; [reflexivity|apply erase_not_in]].
  intros a. destruct s as [fl ts cs ev].
  cbn [interrupted_ tools_ contexts_ events].
  unfold tool_runs. cbn [events].
  rewrite !filter_app, !length_app.
  assert (H : filter (fun e => match e with
                               | ToolRun u => (u =? a)%nat
                               | _ => false
                               end) (map ToolInterrupt ts) = []).
  { clear. induction ts as [|u us IH]; simpl; [reflexivity|exact IH]. }
  rewrite H. simpl. lia.
Qed.

End AfterInterrupt.
